(** * Battle session of whos_that_mortal_pokemon

    A shallow embedding of [src/context/battle-context.tsx] (the battle
    session: room lifecycle, guesses, scoring) and of the one room write
    made by [src/app/(tabs)/index.tsx] (countdown to playing).

    Conventions of the embedding.
    - JavaScript strings are modelled by Rocq strings (sequences of 8-bit
      code units, that is the code units below 256); [toLowerCase] and
      [toUpperCase] map the ASCII letters and leave every other code unit
      alone, [trim] removes the white space of that range (the ASCII white
      space and the no-break space).  Room codes and creature names are
      ASCII.
    - JavaScript numbers that the code only counts with are integers [Z].
    - The Firestore collection ['rooms'] is a finite map from document
      keys to room documents.  A store round trip may fail (transport);
      the outcomes of the coming round trips are part of the world, as are
      the coming values of [Math.random] and the coming responses of the
      creature service.
    - An [async] action is a computation in the monad [M]: it threads the
      world and either returns or throws; [try]/[catch] is [try_catch].
    - The React state of one client is the record [Session]; an action
      receives the session it closed over and returns the session after
      its [set...] calls. *)

From stdpp Require Import gmap strings list pretty.
From Stdlib Require Import ZArith Ascii String Lia.

Open Scope string_scope.
Open Scope Z_scope.

(** ** JavaScript string builtins used by the code *)

Module Js.

Definition code_unit (c : ascii) : N := N_of_ascii c.

Definition between (lo hi : N) (c : ascii) : bool :=
  ((lo <=? code_unit c) && (code_unit c <=? hi))%N.

Definition is_upper : ascii -> bool := between 65 90.
Definition is_lower : ascii -> bool := between 97 122.
Definition is_digit : ascii -> bool := between 48 57.

(** White space removed by [String.prototype.trim], as far as it lies
    among the code units below 256: TAB, LF, VT, FF, CR, SPACE and
    NO-BREAK SPACE (U+00A0).  The other white space and line terminators
    of the language (U+1680, U+2000 to U+200A, U+2028, U+2029, U+202F,
    U+205F, U+3000, U+FEFF) are code units above 255. *)
Definition is_space (c : ascii) : bool :=
  between 9 13 c || (code_unit c =? 32)%N || (code_unit c =? 160)%N.

Definition lower_char (c : ascii) : ascii :=
  if is_upper c then ascii_of_N (code_unit c + 32) else c.

Definition upper_char (c : ascii) : ascii :=
  if is_lower c then ascii_of_N (code_unit c - 32) else c.

Fixpoint map_units (f : ascii -> ascii) (s : string) : string :=
  match s with
  | EmptyString => EmptyString
  | String c s' => String (f c) (map_units f s')
  end.

Definition toLowerCase : string -> string := map_units lower_char.
Definition toUpperCase : string -> string := map_units upper_char.

Fixpoint trimStart (s : string) : string :=
  match s with
  | EmptyString => EmptyString
  | String c s' => if is_space c then trimStart s' else s
  end.

Fixpoint trimEnd (s : string) : string :=
  match s with
  | EmptyString => EmptyString
  | String c s' =>
      match trimEnd s' with
      | EmptyString => if is_space c then EmptyString else String c EmptyString
      | t => String c t
      end
  end.

Definition trim (s : string) : string := trimEnd (trimStart s).

(** [s.replace(/[^a-z0-9]/g, '')]: every code unit outside [a-z0-9] is
    removed. *)
Definition keeps (c : ascii) : bool := is_lower c || is_digit c.

Fixpoint strip_non_alnum (s : string) : string :=
  match s with
  | EmptyString => EmptyString
  | String c s' =>
      if keeps c then String c (strip_non_alnum s') else strip_non_alnum s'
  end.

(** [s.charAt(i)]: the one-unit string at index [i], the empty string
    when [i] is out of range. *)
Fixpoint charAt (s : string) (i : nat) : string :=
  match s, i with
  | EmptyString, _ => EmptyString
  | String c _, O => String c EmptyString
  | String _ s', S i' => charAt s' i'
  end.

(** Truthiness of a [string | null] value: [null] and the empty string
    are falsy. *)
Definition truthy (o : option string) : bool :=
  match o with
  | Some (String _ _) => true
  | _ => false
  end.

(** A value of [Math.random()]: a fraction [num/den] of the unit
    interval.  [Math.floor(r * n)] is exact for the small [n] used here. *)
Record Draw := { num : Z; den : Z }.

Definition in_unit_interval (r : Draw) : Prop := 0 <= num r < den r.

Definition floor_mul (r : Draw) (n : Z) : Z := (num r * n) / den r.

End Js.

(** ** Data model *)

Definition Timestamp := N.

Record PokemonData := { id : Z; name : string; imageUrl : string }.

Record PlayerGuess := { guess : string; correct : bool; timestamp : Timestamp }.

Inductive Status := Waiting | Ready | Countdown | Playing | RoundEnd | Finished.

Inductive PlayerRole := Host | Guest.

(** ['host' | 'guest' | 'none'], the values of [roundWinner]. *)
Inductive RoundWinner := WonBy (p : PlayerRole) | NoWinner.

Record Scores := { host : Z; guest : Z }.

Record RoomData := {
  hostId : string;
  guestId : option string;
  status : Status;
  currentRound : Z;
  totalRounds : Z;
  currentPokemon : option PokemonData;
  scores : Scores;
  roundWinner : option RoundWinner;
  gameWinner : option PlayerRole;
  hostGuess : option PlayerGuess;
  guestGuess : option PlayerGuess;
  countdownStartAt : option Timestamp;
  createdAt : Timestamp
}.

Inductive BattleState :=
| BIdle | BCreating | BWaiting | BJoining | BReady
| BCountdown | BPlaying | BRoundEnd | BFinished.

(** The messages the session shows in [error]. *)
Definition msg_connection_lost := "Connection lost. Please try again.".
Definition msg_create_failed := "Failed to create room. Please try again.".
Definition msg_not_found := "Room not found. Check the code and try again.".
Definition msg_full := "Room is full. Try a different code.".
Definition msg_in_progress := "Game already in progress.".
Definition msg_join_failed := "Failed to join room. Please try again.".
Definition msg_start_failed := "Failed to start game. Please try again.".

(** The React state of one client ([useState] cells of [BattleProvider]). *)
Record Session := {
  playerId : string;
  roomCode : option string;
  room : option RoomData;
  playerRole : option PlayerRole;
  battleState : BattleState;
  error : option string
}.

#[global] Instance Status_eq_dec : EqDecision Status.
Proof. solve_decision. Defined.
#[global] Instance PlayerRole_eq_dec : EqDecision PlayerRole.
Proof. solve_decision. Defined.

Definition setRoomCode (v : option string) (s : Session) : Session :=
  {| playerId := playerId s; roomCode := v; room := room s;
     playerRole := playerRole s; battleState := battleState s;
     error := error s |}.

Definition setRoom (v : option RoomData) (s : Session) : Session :=
  {| playerId := playerId s; roomCode := roomCode s; room := v;
     playerRole := playerRole s; battleState := battleState s;
     error := error s |}.

Definition setPlayerRole (v : option PlayerRole) (s : Session) : Session :=
  {| playerId := playerId s; roomCode := roomCode s; room := room s;
     playerRole := v; battleState := battleState s; error := error s |}.

Definition setBattleState (v : BattleState) (s : Session) : Session :=
  {| playerId := playerId s; roomCode := roomCode s; room := room s;
     playerRole := playerRole s; battleState := v; error := error s |}.

Definition setError (v : option string) (s : Session) : Session :=
  {| playerId := playerId s; roomCode := roomCode s; room := room s;
     playerRole := playerRole s; battleState := battleState s; error := v |}.

(** ** Partial updates of a room document

    [updateDoc(ref, {f1: v1, ...})] merges the listed fields into the
    stored document; a patch is the list of its field assignments. *)

Inductive FieldUpdate :=
| SetGuestId (v : option string)
| SetStatus (v : Status)
| SetCurrentRound (v : Z)
| SetCurrentPokemon (v : option PokemonData)
| SetScores (v : Scores)
| SetRoundWinner (v : option RoundWinner)
| SetGameWinner (v : option PlayerRole)
| SetHostGuess (v : option PlayerGuess)
| SetGuestGuess (v : option PlayerGuess)
| SetCountdownStartAt (v : option Timestamp).

Definition apply_field (r : RoomData) (u : FieldUpdate) : RoomData :=
  let mk g st cr cp sc rw gw hg gg cd :=
    {| hostId := hostId r; guestId := g; status := st; currentRound := cr;
       totalRounds := totalRounds r; currentPokemon := cp; scores := sc;
       roundWinner := rw; gameWinner := gw; hostGuess := hg;
       guestGuess := gg; countdownStartAt := cd; createdAt := createdAt r |} in
  let g := guestId r in let st := status r in let cr := currentRound r in
  let cp := currentPokemon r in let sc := scores r in
  let rw := roundWinner r in let gw := gameWinner r in
  let hg := hostGuess r in let gg := guestGuess r in
  let cd := countdownStartAt r in
  match u with
  | SetGuestId v => mk v st cr cp sc rw gw hg gg cd
  | SetStatus v => mk g v cr cp sc rw gw hg gg cd
  | SetCurrentRound v => mk g st v cp sc rw gw hg gg cd
  | SetCurrentPokemon v => mk g st cr v sc rw gw hg gg cd
  | SetScores v => mk g st cr cp v rw gw hg gg cd
  | SetRoundWinner v => mk g st cr cp sc v gw hg gg cd
  | SetGameWinner v => mk g st cr cp sc rw v hg gg cd
  | SetHostGuess v => mk g st cr cp sc rw gw v gg cd
  | SetGuestGuess v => mk g st cr cp sc rw gw hg v cd
  | SetCountdownStartAt v => mk g st cr cp sc rw gw hg gg v
  end.

Definition apply_patch (p : list FieldUpdate) (r : RoomData) : RoomData :=
  fold_left apply_field p r.

(** ** The world outside the client, and the monad of [async] actions *)

Record World := {
  rooms : gmap string RoomData;          (* the collection 'rooms' *)
  clock : Timestamp;                     (* the server's time *)
  faults : list bool;                    (* coming round trips: true = fails *)
  random : list Js.Draw;                 (* coming values of Math.random() *)
  pokeapi : list (option PokemonData)    (* coming creature responses *)
}.

Inductive Res (A : Type) := Ok (a : A) | Throw.
Arguments Ok {A} a.
Arguments Throw {A}.

Definition M (A : Type) : Type := World -> Res A * World.

Definition ret {A} (a : A) : M A := fun w => (Ok a, w).

Definition bind {A B} (m : M A) (k : A -> M B) : M B :=
  fun w => match m w with
           | (Ok a, w') => k a w'
           | (Throw, w') => (Throw, w')
           end.

Definition try_catch {A} (m : M A) (handler : M A) : M A :=
  fun w => match m w with
           | (Ok a, w') => (Ok a, w')
           | (Throw, w') => handler w'
           end.

Notation "x <- m ;; k" := (bind m (fun x => k))
  (at level 100, m at next level, right associativity).
Notation "m ;;; k" := (bind m (fun _ => k))
  (at level 100, right associativity).

Definition with_rooms (f : gmap string RoomData -> gmap string RoomData)
    (w : World) : World :=
  {| rooms := f (rooms w); clock := clock w; faults := faults w;
     random := random w; pokeapi := pokeapi w |}.

(** One round trip to the store: consumes the next transport outcome and
    throws when it is a failure. *)
Definition round_trip : M unit :=
  fun w =>
    let w' := {| rooms := rooms w; clock := clock w; faults := tail (faults w);
                 random := random w; pokeapi := pokeapi w |} in
    match faults w with
    | true :: _ => (Throw, w')
    | _ => (Ok tt, w')
    end.

(** [getDoc(doc(db, 'rooms', key))]; [None] is a snapshot that does not
    exist. *)
Definition getDoc (key : string) : M (option RoomData) :=
  round_trip ;;; fun w => (Ok (rooms w !! key), w).

(** [setDoc]: writes the document, replacing one that is there. *)
Definition setDoc (key : string) (data : RoomData) : M unit :=
  round_trip ;;; fun w => (Ok tt, with_rooms (insert key data) w).

(** [updateDoc]: merges the fields; throws when there is no document. *)
Definition updateDoc (key : string) (p : list FieldUpdate) : M unit :=
  round_trip ;;;
  fun w => match rooms w !! key with
           | Some r => (Ok tt, with_rooms (insert key (apply_patch p r)) w)
           | None => (Throw, w)
           end.

Definition deleteDoc (key : string) : M unit :=
  round_trip ;;; fun w => (Ok tt, with_rooms (delete key) w).

(** [serverTimestamp()]: resolved by the server to its time. *)
Definition serverTimestamp : M Timestamp := fun w => (Ok (clock w), w).

(** [Math.random()]; an exhausted source yields 0. *)
Definition Math_random : M Js.Draw :=
  fun w =>
    let w' := {| rooms := rooms w; clock := clock w; faults := faults w;
                 random := tail (random w); pokeapi := pokeapi w |} in
    match random w with
    | r :: _ => (Ok r, w')
    | [] => (Ok {| Js.num := 0; Js.den := 1 |}, w')
    end.

(** The response of the creature service to one [fetch]; a failed request
    or an exhausted source throws. *)
Definition fetch_pokemon (randomId : Z) : M PokemonData :=
  fun w =>
    let w' := {| rooms := rooms w; clock := clock w; faults := faults w;
                 random := random w; pokeapi := tail (pokeapi w) |} in
    match pokeapi w with
    | Some p :: _ => (Ok p, w')
    | _ => (Throw, w')
    end.

(** ** Identity and code generation *)

Definition chars : string := "ABCDEFGHJKLMNPQRSTUVWXYZ23456789".

(** The body of [for (let i = 0; i < 6; i++)], [n] iterations to go. *)
Fixpoint generateRoomCode_loop (n : nat) (code : string) : M string :=
  match n with
  | O => ret code
  | S n' =>
      r <- Math_random ;;
      generateRoomCode_loop n'
        (code ++ Js.charAt chars
                   (Z.to_nat (Js.floor_mul r (Z.of_nat (String.length chars)))))
  end.

Definition generateRoomCode : M string := generateRoomCode_loop 6 "".

Definition fetchRandomPokemon : M PokemonData :=
  r <- Math_random ;;
  let randomId := Js.floor_mul r 151 + 1 in
  fetch_pokemon randomId.

(** ** The subscription to the room document ([onSnapshot]) *)

Definition battleState_of_status (st : Status) : BattleState :=
  match st with
  | Waiting => BWaiting
  | Ready => BReady
  | Countdown => BCountdown
  | Playing => BPlaying
  | RoundEnd => BRoundEnd
  | Finished => BFinished
  end.

(** The snapshot callback; [None] is a snapshot of a deleted document. *)
Definition onSnapshot (snapshot : option RoomData) (s : Session) : Session :=
  match snapshot with
  | Some data => setBattleState (battleState_of_status (status data))
                   (setRoom (Some data) s)
  | None => setBattleState BIdle
              (setPlayerRole None (setRoomCode None (setRoom None s)))
  end.

Definition onSnapshotError (s : Session) : Session :=
  setError (Some msg_connection_lost) s.

(** ** Actions of the battle session *)

(** [while (attempts < 10)], with [n = 10 - attempts] iterations to go. *)
Fixpoint createRoom_loop (n : nat) (code : string) : M string :=
  match n with
  | O => ret code
  | S n' =>
      roomSnap <- getDoc code ;;
      match roomSnap with
      | None => ret code
      | Some _ => code' <- generateRoomCode ;; createRoom_loop n' code'
      end
  end.

Definition freshRoom (player : string) (now : Timestamp) : RoomData :=
  {| hostId := player; guestId := None; status := Waiting;
     currentRound := 0; totalRounds := 5; currentPokemon := None;
     scores := {| host := 0; guest := 0 |};
     roundWinner := None; gameWinner := None;
     hostGuess := None; guestGuess := None;
     countdownStartAt := None; createdAt := now |}.

Definition createRoom (s : Session) : M Session :=
  let s := setBattleState BCreating (setError None s) in
  try_catch
    (code <- generateRoomCode ;;
     code <- createRoom_loop 10 code ;;
     now <- serverTimestamp ;;
     setDoc code (freshRoom (playerId s) now) ;;;
     ret (setBattleState BWaiting
            (setPlayerRole (Some Host) (setRoomCode (Some code) s))))
    (ret (setBattleState BIdle (setError (Some msg_create_failed) s))).

Definition joinRoom (code : string) (s : Session) : M (bool * Session) :=
  let s := setBattleState BJoining (setError None s) in
  let fail msg := ret (false, setBattleState BIdle (setError (Some msg) s)) in
  try_catch
    (let roomRef := Js.toUpperCase code in
     roomSnap <- getDoc roomRef ;;
     match roomSnap with
     | None => fail msg_not_found
     | Some roomData =>
         if Js.truthy (guestId roomData) then fail msg_full
         else if negb (bool_decide (status roomData = Waiting))
         then fail msg_in_progress
         else
           updateDoc roomRef [SetGuestId (Some (playerId s)); SetStatus Ready] ;;;
           ret (true,
                setBattleState BReady
                  (setPlayerRole (Some Guest)
                     (setRoomCode (Some (Js.toUpperCase code)) s)))
     end)
    (fail msg_join_failed).

Definition resetLocal (s : Session) : Session :=
  setError None
    (setBattleState BIdle
       (setPlayerRole None (setRoom None (setRoomCode None s)))).

Definition leaveRoom (s : Session) : M Session :=
  match roomCode s with
  | Some (String _ _ as code) =>
      try_catch
        (match playerRole s with
         | Some Host => deleteDoc code
         | Some Guest => updateDoc code [SetGuestId None; SetStatus Waiting]
         | None => ret tt
         end)
        (ret tt) ;;;
      ret (resetLocal s)
  | _ => ret s
  end.

Definition startGame (s : Session) : M Session :=
  match roomCode s, playerRole s with
  | Some (String _ _ as code), Some Host =>
      try_catch
        (pokemon <- fetchRandomPokemon ;;
         now <- serverTimestamp ;;
         updateDoc code
           [SetStatus Countdown; SetCurrentRound 1;
            SetCurrentPokemon (Some pokemon); SetRoundWinner None;
            SetHostGuess None; SetGuestGuess None;
            SetCountdownStartAt (Some now)] ;;;
         ret s)
        (ret (setError (Some msg_start_failed) s))
  | _, _ => ret s
  end.

Definition normalizeGuess (text : string) : string :=
  Js.strip_non_alnum (Js.trim (Js.toLowerCase text)).

Definition normalizeAnswer (text : string) : string :=
  Js.strip_non_alnum (Js.toLowerCase text).

Definition score_of (p : PlayerRole) (sc : Scores) : Z :=
  match p with Host => host sc | Guest => guest sc end.

(** [newScores[playerRole]++] on a copy of the scores. *)
Definition increment (p : PlayerRole) (sc : Scores) : Scores :=
  match p with
  | Host => {| host := host sc + 1; guest := guest sc |}
  | Guest => {| host := host sc; guest := guest sc + 1 |}
  end.

Definition guess_of (p : PlayerRole) (r : RoomData) : option PlayerGuess :=
  match p with Host => hostGuess r | Guest => guestGuess r end.

Definition other (p : PlayerRole) : PlayerRole :=
  match p with Host => Guest | Guest => Host end.

Definition guessField (p : PlayerRole) : option PlayerGuess -> FieldUpdate :=
  match p with Host => SetHostGuess | Guest => SetGuestGuess end.

(** The update that [submitGuess] sends once the guess is eligible. *)
Definition guessPatch (role : PlayerRole) (r : RoomData)
    (guessData : PlayerGuess) : list FieldUpdate :=
  let otherGuess := guess_of (other role) r in
  if correct guessData then
    let newScores := increment role (scores r) in
    let isGameOver := (currentRound r >=? 5) || (score_of role newScores >=? 3) in
    [guessField role (Some guessData);
     SetRoundWinner (Some (WonBy role));
     SetScores newScores;
     SetStatus (if isGameOver then Finished else RoundEnd)]
    ++ (if isGameOver
        then [SetGameWinner
                (Some (if host newScores >? guest newScores then Host else Guest))]
        else [])
  else
    match otherGuess with
    | Some og =>
        if correct og then [guessField role (Some guessData)]
        else
          let isGameOver := currentRound r >=? 5 in
          [guessField role (Some guessData);
           SetRoundWinner (Some NoWinner);
           SetStatus (if isGameOver then Finished else RoundEnd)]
          ++ (if isGameOver
              then [SetGameWinner
                      (if host (scores r) >? guest (scores r) then Some Host
                       else if guest (scores r) >? host (scores r) then Some Guest
                       else None)]
              else [])
    | None => [guessField role (Some guessData)]
    end.

Definition submitGuess (text : string) (s : Session) : M bool :=
  match roomCode s, room s, playerRole s with
  | Some (String _ _ as code), Some r, Some role =>
      if negb (bool_decide (status r = Playing)) then ret false
      else
        match currentPokemon r with
        | None => ret false
        | Some pokemon =>
            match guess_of role r with
            | Some _ => ret false
            | None =>
                let normalizedGuess := normalizeGuess text in
                let normalizedAnswer := normalizeAnswer (name pokemon) in
                let isCorrect := String.eqb normalizedGuess normalizedAnswer in
                now <- serverTimestamp ;;
                let guessData :=
                  {| guess := normalizedGuess; correct := isCorrect;
                     timestamp := now |} in
                try_catch (updateDoc code (guessPatch role r guessData)) (ret tt) ;;;
                ret isCorrect
            end
        end
  | _, _, _ => ret false
  end.

Definition nextRound (s : Session) : M unit :=
  match roomCode s, playerRole s, room s with
  | Some (String _ _ as code), Some Host, Some r =>
      try_catch
        (pokemon <- fetchRandomPokemon ;;
         now <- serverTimestamp ;;
         updateDoc code
           [SetStatus Countdown; SetCurrentRound (currentRound r + 1);
            SetCurrentPokemon (Some pokemon); SetRoundWinner None;
            SetHostGuess None; SetGuestGuess None;
            SetCountdownStartAt (Some now)])
        (ret tt)
  | _, _, _ => ret tt
  end.

Definition playAgain (s : Session) : M unit :=
  match roomCode s, playerRole s with
  | Some (String _ _ as code), Some Host =>
      try_catch
        (pokemon <- fetchRandomPokemon ;;
         now <- serverTimestamp ;;
         updateDoc code
           [SetStatus Countdown; SetCurrentRound 1;
            SetCurrentPokemon (Some pokemon);
            SetScores {| host := 0; guest := 0 |};
            SetRoundWinner None; SetGameWinner None;
            SetHostGuess None; SetGuestGuess None;
            SetCountdownStartAt (Some now)])
        (ret tt)
  | _, _ => ret tt
  end.

(** [updateCountdown] of the battle screen, run while the local state is
    [countdown]: once three seconds have passed since [countdownStartAt]
    the host writes [status: 'playing'].  [now] is the local clock and
    timestamps are in milliseconds. *)
Definition updateCountdown (now : Z) (s : Session) : M unit :=
  match battleState s, room s with
  | BCountdown, Some r =>
      match countdownStartAt r with
      | Some startTime =>
          let elapsed := (now - Z.of_N startTime) / 1000 in
          let remaining := 3 - elapsed in
          if remaining <=? 0 then
            match playerRole s, roomCode s with
            | Some Host, Some (String _ _ as code) =>
                try_catch (updateDoc code [SetStatus Playing]) (ret tt)
            | _, _ => ret tt
            end
          else ret tt
      | None => ret tt
      end
  | _, _ => ret tt
  end.

(** * Vocabulary of the statements, and the data of the examples *)

(** ** Room codes *)

Definition units (s : string) : list ascii := list_ascii_of_string s.

(** The characters the comment of [generateRoomCode] calls confusing. *)
Definition ambiguous : list ascii := units "0O1I".

Definition allowed (c : ascii) : Prop :=
  (Js.is_upper c || Js.is_digit c) = true /\ ~ In c ambiguous.

Definition over (alphabet : list ascii) (code : string) : Prop :=
  Forall (fun c => In c alphabet) (units code).

Definition draws_valid (w : World) : Prop :=
  Forall Js.in_unit_interval (random w).

(** The world after [n] calls of [Math.random]. *)
Definition after_draws (n : nat) (w : World) : World :=
  {| rooms := rooms w; clock := clock w; faults := faults w;
     random := drop n (random w); pokeapi := pokeapi w |}.

Definition well_formed_code (code : string) : Prop :=
  String.length code = 6%nat /\ over (units chars) code.

Definition member (c : ascii) (l : list ascii) : bool := existsb (Ascii.eqb c) l.

(** ** Concrete clients and worlds used in the examples *)

Definition idle (player : string) : Session :=
  {| playerId := player; roomCode := None; room := None;
     playerRole := None; battleState := BIdle; error := None |}.

Definition quiet (store : gmap string RoomData) : World :=
  {| rooms := store; clock := 1000%N; faults := []; random := [];
     pokeapi := [] |}.

Definition in_room (player code : string) (role : PlayerRole) (r : RoomData)
  : Session :=
  {| playerId := player; roomCode := Some code; room := Some r;
     playerRole := Some role;
     battleState := battleState_of_status (status r); error := None |}.

(** ** createRoom *)

(** The statement about room codes, for an alphabet of [size] characters:
    some duplicate-free alphabet of that size, made of upper-case letters
    and digits other than 0, O, 1 and I, contains every character of every
    six-character code that [createRoom] reports. *)
Definition room_code_claim (size : nat) : Prop :=
  exists alphabet : list ascii,
    List.length alphabet = size /\ NoDup alphabet /\ Forall allowed alphabet
    /\ forall s w s' w',
         draws_valid w -> createRoom s w = (Ok s', w') ->
         battleState s' = BWaiting ->
         exists code, roomCode s' = Some code
                      /\ String.length code = 6%nat /\ over alphabet code.

Definition half : Js.Draw := {| Js.num := 1; Js.den := 2 |}.
Definition late : Js.Draw := {| Js.num := 31; Js.den := 32 |}.

Definition six_draws_world : World :=
  {| rooms := ∅; clock := 1000%N; faults := [];
     random := [half; late; half; {| Js.num := 0; Js.den := 1 |}; late; half];
     pokeapi := [] |}.

Definition hosting_S9SA9S : Session :=
  {| playerId := "player_a"; roomCode := Some "S9SA9S"; room := None;
     playerRole := Some Host; battleState := BWaiting; error := None |}.

(** *** Exhausted retries *)

Definition constant_draws (k : Z) : list Js.Draw :=
  replicate 6 {| Js.num := k; Js.den := 32 |}.

(** Somebody else's match, in its second round. *)
Definition other_match : RoomData :=
  {| hostId := "player_x"; guestId := Some "player_y"; status := Playing;
     currentRound := 2; totalRounds := 5;
     currentPokemon :=
       Some {| id := 25; name := "pikachu"; imageUrl := "pikachu.png" |};
     scores := {| host := 1; guest := 0 |};
     roundWinner := None; gameWinner := None;
     hostGuess := None; guestGuess := None;
     countdownStartAt := Some 500%N; createdAt := 100%N |}.

Definition taken_codes : list string :=
  ["AAAAAA"; "BBBBBB"; "CCCCCC"; "DDDDDD"; "EEEEEE"; "FFFFFF";
   "GGGGGG"; "HHHHHH"; "JJJJJJ"; "KKKKKK"; "LLLLLL"].

(** Eleven rooms exist, and the next eleven generated codes are theirs. *)
Definition crowded_world : World :=
  {| rooms := list_to_map ((fun c => (c, other_match)) <$> taken_codes);
     clock := 1000%N; faults := [];
     random := List.concat (constant_draws <$> [0; 1; 2; 3; 4; 5; 6; 7; 8; 9; 10]);
     pokeapi := [] |}.

(** ** The store is reachable *)

(** The next [k] round trips to the store succeed. *)
Definition round_trips_ok (k : nat) (w : World) : bool :=
  forallb negb (take k (faults w)).


Definition joined (player : string) (r : RoomData) : RoomData :=
  {| hostId := hostId r; guestId := Some player; status := Ready;
     currentRound := currentRound r; totalRounds := totalRounds r;
     currentPokemon := currentPokemon r; scores := scores r;
     roundWinner := roundWinner r; gameWinner := gameWinner r;
     hostGuess := hostGuess r; guestGuess := guestGuess r;
     countdownStartAt := countdownStartAt r; createdAt := createdAt r |}.

Definition guest_left (r : RoomData) : RoomData :=
  {| hostId := hostId r; guestId := None; status := Waiting;
     currentRound := currentRound r; totalRounds := totalRounds r;
     currentPokemon := currentPokemon r; scores := scores r;
     roundWinner := roundWinner r; gameWinner := gameWinner r;
     hostGuess := hostGuess r; guestGuess := guestGuess r;
     countdownStartAt := countdownStartAt r; createdAt := createdAt r |}.

Ltac store_steps :=
  unfold try_catch, getDoc, setDoc, updateDoc, deleteDoc in *;
  unfold bind, round_trip, serverTimestamp, ret, with_rooms in *.

(** ** joinRoom *)

Definition lobby : gmap string RoomData :=
  {[ "AB23CD" := freshRoom "player_h" 900%N ]}.

Definition guest_of_AB23CD : Session :=
  {| playerId := "player_g"; roomCode := Some "AB23CD"; room := None;
     playerRole := Some Guest; battleState := BReady; error := None |}.

(** ** leaveRoom *)

Definition full_room : RoomData := joined "player_g" (freshRoom "player_h" 900%N).

(** ** playAgain *)

Definition restarted (p : PokemonData) (now : Timestamp) (r : RoomData)
  : RoomData :=
  {| hostId := hostId r; guestId := guestId r; status := Countdown;
     currentRound := 1; totalRounds := totalRounds r;
     currentPokemon := Some p; scores := {| host := 0; guest := 0 |};
     roundWinner := None; gameWinner := None;
     hostGuess := None; guestGuess := None;
     countdownStartAt := Some now; createdAt := createdAt r |}.

Definition finished_match : RoomData :=
  {| hostId := "player_h"; guestId := Some "player_g"; status := Finished;
     currentRound := 4; totalRounds := 5;
     currentPokemon :=
       Some {| id := 25; name := "pikachu"; imageUrl := "pikachu.png" |};
     scores := {| host := 3; guest := 1 |};
     roundWinner := Some (WonBy Host); gameWinner := Some Host;
     hostGuess :=
       Some {| guess := "pikachu"; correct := true; timestamp := 990%N |};
     guestGuess :=
       Some {| guess := "raichu"; correct := false; timestamp := 980%N |};
     countdownStartAt := Some 950%N; createdAt := 900%N |}.

Definition eevee : PokemonData :=
  {| id := 133; name := "eevee"; imageUrl := "eevee.png" |}.

Definition rematch_world : World :=
  {| rooms := {[ "AB23CD" := finished_match ]}; clock := 1000%N;
     faults := []; random := [half]; pokeapi := [Some eevee] |}.

(** ** submitGuess *)

(** *** The normalization in the words of the specification

    "Lowercase, trim, strip non-alphanumeric", written out on the list of
    code units with the letters, digits and white space given as tables,
    and without the builtins of [Js]: the description that the value
    computed by the code ([normalizeGuess]) is compared with. *)

Definition capital_letters : list ascii := units "ABCDEFGHIJKLMNOPQRSTUVWXYZ".
Definition small_letters : list ascii := units "abcdefghijklmnopqrstuvwxyz".
Definition decimal_digits : list ascii := units "0123456789".

(** TAB, LF, VT, FF, CR, SPACE and NO-BREAK SPACE. *)
Definition white_space : list ascii :=
  ascii_of_nat <$> [9; 10; 11; 12; 13; 32; 160]%nat.

(** The entry of [to] at the position that [c] has in [from]; [c] itself
    when it is not in [from]. *)
Fixpoint translate (from to : list ascii) (c : ascii) : ascii :=
  match from, to with
  | f :: from', t :: to' => if Ascii.eqb c f then t else translate from' to' c
  | _, _ => c
  end.

(** Lowercase: every capital letter becomes its small letter. *)
Definition spec_lowercase (l : list ascii) : list ascii :=
  translate capital_letters small_letters <$> l.

Fixpoint drop_leading_space (l : list ascii) : list ascii :=
  match l with
  | c :: l' => if member c white_space then drop_leading_space l' else l
  | [] => []
  end.

(** Trim: the white space in front and at the end is removed. *)
Definition spec_trim (l : list ascii) : list ascii :=
  rev (drop_leading_space (rev (drop_leading_space l))).

Definition alphanumeric : list ascii :=
  (capital_letters ++ small_letters ++ decimal_digits)%list.

(** Strip non-alphanumeric: only letters and digits remain. *)
Definition spec_strip (l : list ascii) : list ascii :=
  List.filter (fun c => member c alphanumeric) l.

Definition spec_normalize (text : string) : string :=
  string_of_list_ascii (spec_strip (spec_trim (spec_lowercase (units text)))).


(** The world after one round trip to the store. *)
Definition after_round_trip (w : World) : World :=
  {| rooms := rooms w; clock := clock w; faults := tail (faults w);
     random := random w; pokeapi := pokeapi w |}.

Definition guessData_of (text : string) (pokemon : PokemonData)
    (now : Timestamp) : PlayerGuess :=
  {| guess := normalizeGuess text;
     correct := String.eqb (normalizeGuess text) (normalizeAnswer (name pokemon));
     timestamp := now |}.

(** The guards of [submitGuess] let the call through. *)
Definition eligible (s : Session) (code : string) (role : PlayerRole)
    (r : RoomData) (pokemon : PokemonData) : Prop :=
  roomCode s = Some code /\ code <> "" /\ room s = Some r
  /\ playerRole s = Some role /\ status r = Playing
  /\ currentPokemon r = Some pokemon /\ guess_of role r = None.

(** The world after the update of an eligible guess: the patch computed
    from the local snapshot [r] is merged into the stored document, unless
    the round trip fails or the document is gone. *)
Definition write_guess (code : string) (role : PlayerRole) (r : RoomData)
    (gd : PlayerGuess) (w : World) : World :=
  match faults w with
  | true :: _ => after_round_trip w
  | _ =>
      match rooms w !! code with
      | Some stored =>
          with_rooms (insert code (apply_patch (guessPatch role r gd) stored))
            (after_round_trip w)
      | None => after_round_trip w
      end
  end.

Definition pikachu : PokemonData :=
  {| id := 25; name := "pikachu"; imageUrl := "pikachu.png" |}.

(** A room in play: round [n], scores [h]-[g], nobody has guessed. *)
Definition playing_room (n h g : Z) : RoomData :=
  {| hostId := "player_h"; guestId := Some "player_g"; status := Playing;
     currentRound := n; totalRounds := 5; currentPokemon := Some pikachu;
     scores := {| host := h; guest := g |};
     roundWinner := None; gameWinner := None;
     hostGuess := None; guestGuess := None;
     countdownStartAt := Some 950%N; createdAt := 900%N |}.

(** Case analysis over the branches of [guessPatch]. *)
Ltac patch_cases role r gd :=
  destruct role; simpl;
  (destruct (correct gd);
   [| match goal with
      | |- context [match ?o with Some _ => _ | None => _ end] =>
          destruct o as [[? [|] ?] |]
      end]);
  simpl;
  repeat match goal with
         | |- context [if ?b then _ else _] => destruct b; simpl
         end;
  try reflexivity.

(** ** Resolution of a round *)

Definition total (sc : Scores) : Z := host sc + guest sc.

(** The guess of [role] settles the round: it is correct, or it is wrong
    and the other player's wrong guess is already recorded. *)
Definition resolves (role : PlayerRole) (r : RoomData) (gd : PlayerGuess) : Prop :=
  correct gd = true
  \/ exists og, guess_of (other role) r = Some og /\ correct og = false.

(** A room in play as the session's own writes leave it: five rounds, the
    round counter within them, and nobody at three points yet. *)
Definition in_play (r : RoomData) : Prop :=
  totalRounds r = 5 /\ 1 <= currentRound r <= 5
  /\ 0 <= host (scores r) < 3 /\ 0 <= guest (scores r) < 3.

(** ** Two clients and one store *)

(** The subscription of a client: while [roomCode] is set, the client
    holds the current snapshot of that document. *)
Definition refresh (w : World) (s : Session) : Session :=
  match roomCode s with
  | Some (String _ _ as code) => onSnapshot (rooms w !! code) s
  | _ => s
  end.

(** The operations that write to the store: the seven of the battle
    session and the countdown write of the battle screen. *)
Inductive Action :=
| AStartGame
| ACountdown (now : Z)
| ASubmitGuess (text : string)
| ANextRound
| AJoinRoom (code : string)
| ALeaveRoom
| ACreateRoom
| APlayAgain.

Definition act (a : Action) (s : Session) : M Session :=
  match a with
  | AStartGame => startGame s
  | ACountdown now => updateCountdown now s ;;; ret s
  | ASubmitGuess text => submitGuess text s ;;; ret s
  | ANextRound => nextRound s ;;; ret s
  | AJoinRoom code => out <- joinRoom code s ;; ret out.2
  | ALeaveRoom => leaveRoom s
  | ACreateRoom => createRoom s
  | APlayAgain => playAgain s ;;; ret s
  end.


Inductive Client := First | Second.

Record System := { first : Session; second : Session; world : World }.

Definition client (c : Client) (sys : System) : Session :=
  match c with First => first sys | Second => second sys end.

(** One action of one client, on the snapshots both clients hold. *)
Definition step (op : Client * Action) (sys : System) : System :=
  let w := world sys in
  let s1 := refresh w (first sys) in
  let s2 := refresh w (second sys) in
  match op.1 with
  | First =>
      match act op.2 s1 w with
      | (Ok s1', w') => {| first := s1'; second := s2; world := w' |}
      | (Throw, w') => {| first := s1; second := s2; world := w' |}
      end
  | Second =>
      match act op.2 s2 w with
      | (Ok s2', w') => {| first := s1; second := s2'; world := w' |}
      | (Throw, w') => {| first := s1; second := s2; world := w' |}
      end
  end.

Definition run (ops : list (Client * Action)) (sys : System) : System :=
  fold_left (fun sys op => step op sys) ops sys.

Definition was_correct (o : option PlayerGuess) : bool :=
  match o with Some og => correct og | None => false end.

Definition is_none {A} (o : option A) : bool :=
  match o with Some _ => false | None => true end.

(** The guess [a] of a client holding [s] is the first correct guess of
    the round in room [code]: the room is in play, the client has not
    guessed, nobody was correct before, and the text names the creature. *)
Definition first_correct (code : string) (a : Action) (s : Session) : bool :=
  match a, roomCode s, room s, playerRole s with
  | ASubmitGuess text, Some c, Some r, Some role =>
      bool_decide (c = code)
      && bool_decide (status r = Playing)
      && is_none (guess_of role r)
      && negb (was_correct (guess_of (other role) r))
      && match currentPokemon r with
         | Some pokemon =>
             String.eqb (normalizeGuess text) (normalizeGuess (name pokemon))
         | None => false
         end
  | _, _, _, _ => false
  end.


Definition won (code : string) (op : Client * Action) (sys : System) : bool :=
  first_correct code op.2 (refresh (world sys) (client op.1 sys)).


(** The number of rounds of room [code] that a first correct guess
    decides while [ops] run. *)
Fixpoint rounds_won (code : string) (ops : list (Client * Action))
    (sys : System) : Z :=
  match ops with
  | [] => 0
  | op :: ops' =>
      (if won code op sys then 1 else 0) + rounds_won code ops' (step op sys)
  end.

Definition score_total (code : string) (w : World) : option Z :=
  (fun r => total (scores r)) <$> rooms w !! code.

(** What the writes to a room maintain: a countdown starts without
    guesses, and while the round is open no recorded guess is correct. *)
Definition round_open (r : RoomData) : Prop :=
  (status r = Countdown -> hostGuess r = None /\ guestGuess r = None)
  /\ (status r = Playing ->
      was_correct (hostGuess r) = false /\ was_correct (guestGuess r) = false).

Definition store_ok (code : string) (w : World) : Prop :=
  faults w = [] /\ forall r, rooms w !! code = Some r -> round_open r.

(** A client that holds the current snapshot of its room. *)
Definition synced (w : World) (s : Session) : Prop :=
  forall key, roomCode s = Some key -> key <> "" ->
    exists r, rooms w !! key = Some r /\ room s = Some r
              /\ battleState s = battleState_of_status (status r).

(** *** Updates that do not touch the scores *)



(** *** Guesses *)

Definition resolved (r : RoomData) : Prop :=
  status r = RoundEnd \/ status r = Finished.




(** *** A match of three rounds *)

Definition table : System :=
  {| first := in_room "player_h" "AB23CD" Host (playing_room 1 0 0);
     second := in_room "player_g" "AB23CD" Guest (playing_room 1 0 0);
     world := {| rooms := {[ "AB23CD" := playing_room 1 0 0 ]};
                 clock := 1000%N; faults := []; random := [];
                 pokeapi := [Some eevee; Some pikachu] |} |}.

(** Round 1: the guest is right, and the host's late answer is ignored.
    Round 2: both are wrong.  Round 3: the host is right. *)
Definition three_rounds : list (Client * Action) :=
  [ (Second, ASubmitGuess "Pikachu"); (First, ASubmitGuess "pikachu");
    (First, ANextRound); (First, ACountdown 5000);
    (First, ASubmitGuess "vaporeon"); (Second, ASubmitGuess "jolteon");
    (First, ANextRound); (First, ACountdown 5000);
    (First, ASubmitGuess "pikachu") ].

(** After the three rounds the guest leaves and opens a room of their
    own; the draws are used up, so its code is AAAAAA. *)
Definition three_rounds_and_a_new_room : list (Client * Action) :=
  (three_rounds ++ [ (Second, ALeaveRoom); (Second, ACreateRoom) ])%list.

(** *** A newcomer among eleven running matches *)

Definition newcomers : System :=
  {| first := idle "player_b"; second := idle "player_c";
     world := crowded_world |}.

(** * The rest of the battle session and the screens *)

(** ** Battle session: what the provider derives for the screen *)

(** [hasGuessed] of [BattleProvider]: whether the client's own guess field
    is set in the snapshot it holds; a client without a role reads the
    guest's field. *)
Definition hasGuessed (s : Session) : bool :=
  match room s with
  | Some r =>
      match playerRole s with
      | Some Host => negb (is_none (hostGuess r))
      | _ => negb (is_none (guestGuess r))
      end
  | None => false
  end.

(** The room after a successful [startGame]. *)
Definition started (p : PokemonData) (now : Timestamp) (r : RoomData)
  : RoomData :=
  {| hostId := hostId r; guestId := guestId r; status := Countdown;
     currentRound := 1; totalRounds := totalRounds r;
     currentPokemon := Some p; scores := scores r;
     roundWinner := None; gameWinner := gameWinner r;
     hostGuess := None; guestGuess := None;
     countdownStartAt := Some now; createdAt := createdAt r |}.

(** The room after a successful [nextRound] of a host whose snapshot shows
    round [n]. *)
Definition advanced (n : Z) (p : PokemonData) (now : Timestamp) (r : RoomData)
  : RoomData :=
  {| hostId := hostId r; guestId := guestId r; status := Countdown;
     currentRound := n + 1; totalRounds := totalRounds r;
     currentPokemon := Some p; scores := scores r;
     roundWinner := None; gameWinner := gameWinner r;
     hostGuess := None; guestGuess := None;
     countdownStartAt := Some now; createdAt := createdAt r |}.

(** The room after the host's write at the end of the countdown. *)
Definition in_playing (r : RoomData) : RoomData :=
  {| hostId := hostId r; guestId := guestId r; status := Playing;
     currentRound := currentRound r; totalRounds := totalRounds r;
     currentPokemon := currentPokemon r; scores := scores r;
     roundWinner := roundWinner r; gameWinner := gameWinner r;
     hostGuess := hostGuess r; guestGuess := guestGuess r;
     countdownStartAt := countdownStartAt r; createdAt := createdAt r |}.

(** The creature service does not answer the next request. *)
Definition fetch_fails (w : World) : Prop :=
  match pokeapi w with
  | Some _ :: _ => False
  | _ => True
  end.

(** ** The battle screen ([BattleScreen] of [src/app/(tabs)/index.tsx]) *)

Module BattleScreen.

(** [room?.gameWinner === playerRole]; without a room the left side is
    [undefined], which equals no role. *)
Definition isWinner (s : Session) : bool :=
  match room s with
  | Some r => bool_decide (gameWinner r = playerRole s)
  | None => false
  end.

(** [room?.roundWinner === playerRole]. *)
Definition wonRound (s : Session) : bool :=
  match room s with
  | Some r =>
      match roundWinner r, playerRole s with
      | None, None => true
      | Some (WonBy p), Some q => bool_decide (p = q)
      | _, _ => false
      end
  | None => false
  end.

(** [room?.roundWinner === 'none']. *)
Definition bothWrong (s : Session) : bool :=
  match room s with
  | Some r =>
      match roundWinner r with
      | Some NoWinner => true
      | _ => false
      end
  | None => false
  end.

(** The headline of the round-end view. *)
Inductive RoundTitle := BothWrongTitle | YouWinTitle | TooSlowTitle.

Definition roundResultTitle (s : Session) : RoundTitle :=
  if bothWrong s then BothWrongTitle
  else if wonRound s then YouWinTitle
  else TooSlowTitle.

(** The headline of the finished view. *)
Inductive GameOverTitle := Victory | Defeat.

Definition gameOverTitle (s : Session) : GameOverTitle :=
  if isWinner s then Victory else Defeat.

(** The haptic feedback of [handleGuess]. *)
Inductive Feedback := Success | Failure.

(** [handleGuess]: the text of the input field goes to [submitGuess]
    unless it is blank; afterwards the field is emptied.  Returns the new
    text of the field and the feedback given.  (The shake animation is not
    modelled.) *)
Definition handleGuess (guess : string) (s : Session)
  : M (string * option Feedback) :=
  match Js.trim guess with
  | EmptyString => ret (guess, None)
  | _ =>
      isCorrect <- submitGuess guess s ;;
      ret ("", Some (if isCorrect then Success else Failure))
  end.

(** The start button: rendered in the [ready] view, for the host. *)
Definition pressStart (s : Session) : M Session :=
  match battleState s, playerRole s with
  | BReady, Some Host => startGame s
  | _, _ => ret s
  end.

(** The round-end effect: in the [round_end] view a five-second countdown
    runs, and when it has run down the host calls [nextRound]. *)
Definition roundEndElapsed (s : Session) : M unit :=
  match battleState s, playerRole s with
  | BRoundEnd, Some Host => nextRound s
  | _, _ => ret tt
  end.

(** The play-again button: rendered in the [finished] view, for the
    host. *)
Definition pressPlayAgain (s : Session) : M unit :=
  match battleState s, playerRole s with
  | BFinished, Some Host => playAgain s
  | _, _ => ret tt
  end.

(** The Create Room button: rendered in the menu view (states [idle],
    [creating] and [joining]) and disabled while [creating]. *)
Definition pressCreate (s : Session) : M Session :=
  match battleState s with
  | BIdle | BJoining => createRoom s
  | _ => ret s
  end.

(** What a player can set off from the battle screen: the buttons, the
    guess field, and the two timers.  [Join], [Leave] and [Guess] are
    taken in every view, although the screen offers them in some views
    only.  (The copy and share buttons of the waiting view read
    [roomCode] and call nothing of the session.) *)
Inductive Event :=
| PressStart
| CountdownTick (now : Z)
| Guess (text : string)
| RoundEndElapsed
| PressPlayAgain
| Join (code : string)
| Leave
| PressCreate.

Definition handle (e : Event) (s : Session) : M Session :=
  match e with
  | PressStart => pressStart s
  | CountdownTick now => updateCountdown now s ;;; ret s
  | Guess text => handleGuess text s ;;; ret s
  | RoundEndElapsed => roundEndElapsed s ;;; ret s
  | PressPlayAgain => pressPlayAgain s ;;; ret s
  | Join code => out <- joinRoom code s ;; ret out.2
  | Leave => leaveRoom s
  | PressCreate => pressCreate s
  end.

(** The player in whose name an event can create a room. *)
Definition creator (e : Event) (s : Session) : option string :=
  match e with
  | PressCreate => Some (playerId s)
  | _ => None
  end.

(** One event on the screen of one client, on the snapshots both clients
    hold. *)
Definition occur (ev : Client * Event) (sys : System) : System :=
  let w := world sys in
  let s1 := refresh w (first sys) in
  let s2 := refresh w (second sys) in
  match ev.1 with
  | First =>
      match handle ev.2 s1 w with
      | (Ok s1', w') => {| first := s1'; second := s2; world := w' |}
      | (Throw, w') => {| first := s1; second := s2; world := w' |}
      end
  | Second =>
      match handle ev.2 s2 w with
      | (Ok s2', w') => {| first := s1; second := s2'; world := w' |}
      | (Throw, w') => {| first := s1; second := s2; world := w' |}
      end
  end.

Definition play (evs : list (Client * Event)) (sys : System) : System :=
  fold_left (fun sys ev => occur ev sys) evs sys.

End BattleScreen.


(** The updates of a room that the events of the screen can cause. *)
Inductive doc_step (r : RoomData) : RoomData -> Prop :=
| ds_started p now : doc_step r (started p now r)
| ds_advanced p now : status r = RoundEnd ->
    doc_step r (advanced (currentRound r) p now r)
| ds_playing : doc_step r (in_playing r)
| ds_guess role gd : status r = Playing ->
    doc_step r (apply_patch (guessPatch role r gd) r)
| ds_restarted p now : doc_step r (restarted p now r)
| ds_joined player : doc_step r (joined player r)
| ds_left : doc_step r (guest_left r).

(** How an event changes the store; [who] is the player in whose name it
    can create a room, if it can. *)
Inductive world_change (who : option string) (w w' : World) : Prop :=
| wc_same : rooms w' = rooms w -> world_change who w w'
| wc_delete key : rooms w' = delete key (rooms w) -> world_change who w w'
| wc_update key r r' :
    rooms w !! key = Some r -> rooms w' = <[key := r']> (rooms w) ->
    doc_step r r' -> world_change who w w'
| wc_created key player now :
    who = Some player ->
    rooms w' = <[key := freshRoom player now]> (rooms w) ->
    world_change who w w'.

(** ** Guess history ([src/context/guess-history.tsx]) *)

Module GuessHistory.

Record GuessRecord := {
  id : string;
  pokemonName : string;
  pokemonId : Z;
  imageUrl : string;
  wasCorrect : bool;
  timestamp : N
}.

(** [Omit<GuessRecord, 'id' | 'timestamp'>]. *)
Record NewGuess := {
  newName : string;
  newId : Z;
  newImageUrl : string;
  newWasCorrect : bool
}.

(** [addGuess]; [now] is the value of [Date.now()], whose decimal digits
    become the id, and [date] the time of [new Date()]. *)
Definition addGuess (now date : N) (record : NewGuess)
    (history : list GuessRecord) : list GuessRecord :=
  {| id := pretty now; pokemonName := newName record;
     pokemonId := newId record; imageUrl := newImageUrl record;
     wasCorrect := newWasCorrect record; timestamp := date |} :: history.

Definition clearHistory (history : list GuessRecord) : list GuessRecord := [].

(** The counters of [stats].  (Its fourth field, [percentage], is a
    rounded floating-point quotient and is not modelled.) *)
Record Stats := { correct : nat; wrong : nat; total : nat }.

Definition stats (history : list GuessRecord) : Stats :=
  {| correct := List.length (List.filter (fun g => wasCorrect g) history);
     wrong := List.length (List.filter (fun g => negb (wasCorrect g)) history);
     total := List.length history |}.

End GuessHistory.

(** ** The history screen ([src/app/(tabs)/explore.tsx]) *)

Module HistoryScreen.

(** [s.slice(1)]. *)
Definition slice1 (s : string) : string :=
  match s with
  | EmptyString => EmptyString
  | String _ s' => s'
  end.

(** [name.charAt(0).toUpperCase() + name.slice(1)]. *)
Definition displayName (pokemonName : string) : string :=
  Js.toUpperCase (Js.charAt pokemonName 0) ++ slice1 pokemonName.

(** [k] characters of [pad] repeated, starting with [rest]. *)
Fixpoint fill (k : nat) (pad rest : string) : string :=
  match k with
  | O => EmptyString
  | S k' =>
      match rest with
      | String c r => String c (fill k' pad r)
      | EmptyString =>
          match pad with
          | String c r => String c (fill k' pad r)
          | EmptyString => EmptyString
          end
      end
  end.

(** [s.padStart(targetLength, padString)]. *)
Definition padStart (targetLength : nat) (padString : string) (s : string)
  : string :=
  if (targetLength <=? String.length s)%nat then s
  else fill (targetLength - String.length s) padString padString ++ s.

(** [#${pokemonId.toString().padStart(3, '0')}] for an integer id. *)
Definition idLabel (pokemonId : Z) : string :=
  "#" ++ padStart 3 "0" (pretty pokemonId).

End HistoryScreen.

(** ** The single-player screen ([HomeScreen] of [src/app/(tabs)/index.tsx]) *)

Module HomeScreen.

(** The fields of the service's answer that the screen reads;
    [front_default] is [sprites.other['official-artwork'].front_default]. *)
Record Pokemon := { id : Z; name : string; front_default : string }.

Definition normalizeString (str : string) : string :=
  Js.strip_non_alnum (Js.trim (Js.toLowerCase str)).

Definition msg_load_failed := "Failed to load Pokemon. Tap to retry!".

(** The [useState] cells of the screen. *)
Record State := {
  pokemon : option Pokemon;
  isLoading : bool;
  isRevealed : bool;
  wasCorrect : bool;
  guess : string;
  showCelebration : bool;
  showBloodRain : bool;
  showToasty : bool;
  error : option string
}.

(** The callbacks that [handleGuess] leaves with [setTimeout]: the toasty
    banner after 1000 ms, the next creature after 5500 ms. *)
Inductive Timer := ToastyTimer | ReloadTimer.

(** The screen with the history it writes to and the timers it has set.
    (Sounds, haptics and animations are not modelled.) *)
Record App := {
  screen : State;
  history : list GuessHistory.GuessRecord;
  timers : list Timer
}.

(** [loadNewPokemon] up to its [await]: the flags are reset and the
    screen shows the loading indicator. *)
Definition loadNewPokemon_begin (st : State) : State :=
  {| pokemon := pokemon st; isLoading := true; isRevealed := false;
     wasCorrect := false; guess := ""; showCelebration := false;
     showBloodRain := false; showToasty := false; error := None |}.

(** [loadNewPokemon] after its [await]; [response] is the outcome of
    [fetchRandomPokemon], [None] when it throws. *)
Definition loadNewPokemon_settle (response : option Pokemon) (st : State)
  : State :=
  {| pokemon := match response with Some p => Some p | None => pokemon st end;
     isLoading := false; isRevealed := isRevealed st;
     wasCorrect := wasCorrect st; guess := guess st;
     showCelebration := showCelebration st;
     showBloodRain := showBloodRain st; showToasty := showToasty st;
     error := match response with
              | Some _ => error st
              | None => Some msg_load_failed
              end |}.

Definition loadNewPokemon (response : option Pokemon) (st : State) : State :=
  loadNewPokemon_settle response (loadNewPokemon_begin st).

Definition record_of (p : Pokemon) (ok : bool) : GuessHistory.NewGuess :=
  {| GuessHistory.newName := name p; GuessHistory.newId := id p;
     GuessHistory.newImageUrl := front_default p;
     GuessHistory.newWasCorrect := ok |}.

(** [handleGuess]; [now] and [date] are the two clock readings of
    [addGuess]. *)
Definition handleGuess (now date : N) (app : App) : App :=
  let st := screen app in
  match pokemon st with
  | None => app
  | Some p =>
      match Js.trim (guess st) with
      | EmptyString => app
      | _ =>
          if isRevealed st then app
          else
            let normalizedGuess := normalizeString (guess st) in
            let normalizedPokemonName := normalizeString (name p) in
            if String.eqb normalizedGuess normalizedPokemonName then
              {| screen :=
                   {| pokemon := pokemon st; isLoading := isLoading st;
                      isRevealed := true; wasCorrect := true;
                      guess := guess st; showCelebration := true;
                      showBloodRain := showBloodRain st;
                      showToasty := showToasty st; error := error st |};
                 history :=
                   GuessHistory.addGuess now date (record_of p true) (history app);
                 timers := timers app ++ [ToastyTimer] |}
            else
              {| screen :=
                   {| pokemon := pokemon st; isLoading := isLoading st;
                      isRevealed := true; wasCorrect := wasCorrect st;
                      guess := guess st; showCelebration := showCelebration st;
                      showBloodRain := true;
                      showToasty := showToasty st; error := error st |};
                 history :=
                   GuessHistory.addGuess now date (record_of p false) (history app);
                 timers := timers app ++ [ReloadTimer] |}
      end
  end.

(** A timer set by [handleGuess] fires; [response] is the outcome of the
    fetch that [ReloadTimer] starts. *)
Definition fire (t : Timer) (response : option Pokemon) (app : App) : App :=
  let st := screen app in
  match t with
  | ToastyTimer =>
      {| screen :=
           {| pokemon := pokemon st; isLoading := isLoading st;
              isRevealed := isRevealed st; wasCorrect := wasCorrect st;
              guess := guess st; showCelebration := showCelebration st;
              showBloodRain := showBloodRain st; showToasty := true;
              error := error st |};
         history := history app; timers := timers app |}
  | ReloadTimer =>
      {| screen := loadNewPokemon response st;
         history := history app; timers := timers app |}
  end.

End HomeScreen.

(** ** Data of the further examples, and vocabulary of their statements *)

Definition abandoned_match : RoomData :=
  {| hostId := "player_h"; guestId := Some "player_z"; status := Ready;
     currentRound := 3; totalRounds := 5; currentPokemon := Some pikachu;
     scores := {| host := 2; guest := 1 |};
     roundWinner := Some (WonBy Host); gameWinner := None;
     hostGuess := None; guestGuess := None;
     countdownStartAt := Some 950%N; createdAt := 900%N |}.

Definition start_world : World :=
  {| rooms := {[ "AB23CD" := abandoned_match ]}; clock := 1000%N;
     faults := []; random := [half]; pokeapi := [Some eevee] |}.

Definition round_over : RoomData :=
  {| hostId := "player_h"; guestId := Some "player_g"; status := RoundEnd;
     currentRound := 2; totalRounds := 5; currentPokemon := Some pikachu;
     scores := {| host := 1; guest := 1 |};
     roundWinner := Some (WonBy Guest); gameWinner := None;
     hostGuess := None;
     guestGuess :=
       Some {| guess := "pikachu"; correct := true; timestamp := 990%N |};
     countdownStartAt := Some 950%N; createdAt := 900%N |}.

Definition next_world : World :=
  {| rooms := {[ "AB23CD" := round_over ]}; clock := 1000%N;
     faults := []; random := []; pokeapi := [Some eevee; Some pikachu] |}.

Definition silent_world : World :=
  {| rooms := {[ "AB23CD" := round_over ]}; clock := 1000%N;
     faults := []; random := []; pokeapi := [None] |}.

Definition counting : RoomData := started eevee 1000%N abandoned_match.

(** The room with the guess of [role] recorded and nothing else changed. *)
Definition with_guess (role : PlayerRole) (gd : PlayerGuess) (r : RoomData)
  : RoomData :=
  apply_field r (guessField role (Some gd)).

Definition blank (text : string) : Prop :=
  Forall (fun c => Js.is_space c = true) (units text).

(** A text of one no-break space (U+00A0) between two spaces. *)
Definition no_break_space : string :=
  String " " (String (ascii_of_nat 160) (String " " EmptyString)).

(** [adds] in the order of the calls: each with the two clock readings
    and the record passed to [addGuess]. *)
Definition replay (adds : list (N * N * GuessHistory.NewGuess))
    (history : list GuessHistory.GuessRecord) : list GuessHistory.GuessRecord :=
  fold_left (fun h a => GuessHistory.addGuess a.1.1 a.1.2 a.2 h) adds history.

Definition hits (adds : list (N * N * GuessHistory.NewGuess)) : nat :=
  List.length (List.filter (fun a => GuessHistory.newWasCorrect a.2) adds).

Definition misses (adds : list (N * N * GuessHistory.NewGuess)) : nat :=
  List.length (List.filter (fun a => negb (GuessHistory.newWasCorrect a.2)) adds).

Definition caterpie : GuessHistory.NewGuess :=
  {| GuessHistory.newName := "caterpie"; GuessHistory.newId := 10;
     GuessHistory.newImageUrl := "caterpie.png";
     GuessHistory.newWasCorrect := true |}.

Definition mew : GuessHistory.NewGuess :=
  {| GuessHistory.newName := "mew"; GuessHistory.newId := 151;
     GuessHistory.newImageUrl := "mew.png";
     GuessHistory.newWasCorrect := false |}.

Definition bulbasaur : HomeScreen.Pokemon :=
  {| HomeScreen.id := 1; HomeScreen.name := "bulbasaur";
     HomeScreen.front_default := "1.png" |}.

Definition asking (text : string) : HomeScreen.App :=
  {| HomeScreen.screen :=
       {| HomeScreen.pokemon := Some bulbasaur; HomeScreen.isLoading := false;
          HomeScreen.isRevealed := false; HomeScreen.wasCorrect := false;
          HomeScreen.guess := text; HomeScreen.showCelebration := false;
          HomeScreen.showBloodRain := false; HomeScreen.showToasty := false;
          HomeScreen.error := None |};
     HomeScreen.history := []; HomeScreen.timers := [] |}.

Definition three_digits (n : nat) : bool :=
  Nat.eqb (String.length (HistoryScreen.idLabel (Z.of_nat n))) 4.

Ltac unchanged :=
  solve [ eexists _, _; split; [reflexivity |]; apply wc_same; reflexivity
        | eexists; split; [reflexivity |]; apply wc_same; reflexivity ].

Definition opening : System :=
  {| first := in_room "player_h" "AB23CD" Host (freshRoom "player_h" 900%N);
     second := idle "player_g";
     world := {| rooms := lobby; clock := 1000%N; faults := []; random := [];
                 pokeapi := [Some pikachu; Some eevee] |} |}.

(** The guest joins, the host starts, the countdown runs down, the guest
    names the creature, and the round-end timer brings round 2. *)
Definition first_round : list (Client * BattleScreen.Event) :=
  [ (Second, BattleScreen.Join "ab23cd"); (First, BattleScreen.PressStart);
    (First, BattleScreen.CountdownTick 5000);
    (Second, BattleScreen.Guess "Pikachu");
    (First, BattleScreen.RoundEndElapsed) ].

(** After the first round the guest leaves and presses Create Room; the
    draws are used up, so the new room is stored under AAAAAA. *)
Definition second_thoughts : list (Client * BattleScreen.Event) :=
  (first_round ++ [ (Second, BattleScreen.Leave);
                    (Second, BattleScreen.PressCreate) ])%list.

(** * Properties *)

(** ** Strings *)

Lemma space_not_kept c : Js.is_space c = true -> Js.keeps c = false.
Proof.
  unfold Js.is_space, Js.keeps, Js.is_lower, Js.is_digit, Js.between.
  intros H. apply orb_true_iff in H.
  apply orb_false_iff.
  destruct H as [H | H]; [apply orb_true_iff in H; destruct H as [H | H] |].
  - apply andb_true_iff in H as [H1 H2].
    apply N.leb_le in H1, H2.
    split; apply andb_false_iff; left; apply N.leb_gt; lia.
  - apply N.eqb_eq in H. rewrite H. split; reflexivity.
  - apply N.eqb_eq in H. rewrite H. split; reflexivity.
Qed.

Lemma strip_trimStart s :
  Js.strip_non_alnum (Js.trimStart s) = Js.strip_non_alnum s.
Proof.
  induction s as [| c s IH]; simpl; [reflexivity |].
  destruct (Js.is_space c) eqn:Hc; [| reflexivity].
  rewrite (space_not_kept _ Hc). exact IH.
Qed.

Lemma strip_trimEnd s :
  Js.strip_non_alnum (Js.trimEnd s) = Js.strip_non_alnum s.
Proof.
  induction s as [| c s IH]; simpl; [reflexivity |].
  destruct (Js.trimEnd s) as [| d t] eqn:Ht.
  - simpl in IH. rewrite <- IH.
    destruct (Js.is_space c) eqn:Hc.
    + rewrite (space_not_kept _ Hc). reflexivity.
    + simpl. reflexivity.
  - rewrite <- IH. reflexivity.
Qed.

(** Trimming is subsumed by the removal of non-alphanumerics. *)
Lemma strip_trim s : Js.strip_non_alnum (Js.trim s) = Js.strip_non_alnum s.
Proof. unfold Js.trim. rewrite strip_trimEnd. apply strip_trimStart. Qed.

Lemma normalizeGuess_normalizeAnswer text :
  normalizeGuess text = normalizeAnswer text.
Proof. unfold normalizeGuess, normalizeAnswer. apply strip_trim. Qed.

Lemma upper_char_idem c : Js.upper_char (Js.upper_char c) = Js.upper_char c.
Proof.
  unfold Js.upper_char.
  destruct (Js.is_lower c) eqn:Hc; [| rewrite Hc; reflexivity].
  unfold Js.is_lower, Js.between, Js.code_unit in *.
  apply andb_true_iff in Hc as [H1 H2]. apply N.leb_le in H1, H2.
  pose proof (N_ascii_bounded c) as Hb.
  rewrite N_ascii_embedding by lia.
  replace ((97 <=? N_of_ascii c - 32)%N) with false; [reflexivity |].
  symmetry. apply N.leb_gt. lia.
Qed.

Lemma toUpperCase_idem s : Js.toUpperCase (Js.toUpperCase s) = Js.toUpperCase s.
Proof.
  unfold Js.toUpperCase.
  induction s as [| c s IH]; simpl; [reflexivity |].
  rewrite upper_char_idem, IH. reflexivity.
Qed.

Example toUpperCase_ab23cd : Js.toUpperCase "ab23cd" = "AB23CD".
Proof. reflexivity. Qed.

Example normalizeGuess_mr_mime : normalizeGuess "  Mr. Mime " = "mrmime".
Proof. reflexivity. Qed.

Example normalizeAnswer_mr_mime : normalizeAnswer "mr-mime" = "mrmime".
Proof. reflexivity. Qed.

Example trim_inner_space : Js.trim "  a b  " = "a b".
Proof. reflexivity. Qed.

(** ** Room codes *)

Lemma units_app a b : units (a ++ b) = (units a ++ units b)%list.
Proof. induction a as [| c a IH]; simpl; [reflexivity | f_equal; exact IH]. Qed.

Lemma length_units s : List.length (units s) = String.length s.
Proof. induction s as [| c s IH]; simpl; [reflexivity | f_equal; exact IH]. Qed.

Lemma charAt_in_range s : forall i, (i < String.length s)%nat ->
  exists c, Js.charAt s i = String c "" /\ In c (units s).
Proof.
  induction s as [| d s IH]; intros i Hi; simpl in Hi; [lia |].
  destruct i as [| i]; simpl.
  - exists d. split; [reflexivity | left; reflexivity].
  - destruct (IH i) as (c & Hc & Hin); [lia |].
    exists c. split; [exact Hc | right; exact Hin].
Qed.

Lemma floor_mul_range r n :
  Js.in_unit_interval r -> 0 < n -> 0 <= Js.floor_mul r n < n.
Proof.
  unfold Js.in_unit_interval, Js.floor_mul. intros [H0 H1] Hn. split.
  - apply Z.div_pos; nia.
  - apply Z.div_lt_upper_bound; nia.
Qed.

Lemma after_draws_S n w :
  after_draws n (after_draws 1 w) = after_draws (S n) w.
Proof.
  unfold after_draws. simpl. f_equal.
  destruct (random w); simpl; [by rewrite drop_nil | by rewrite drop_0].
Qed.

Lemma draws_valid_after n w : draws_valid w -> draws_valid (after_draws n w).
Proof. unfold draws_valid. simpl. apply Forall_drop. Qed.

Lemma Math_random_spec w :
  draws_valid w ->
  exists r, Math_random w = (Ok r, after_draws 1 w) /\ Js.in_unit_interval r.
Proof.
  unfold draws_valid, Math_random, after_draws. intros H.
  destruct (random w) as [| r rs] eqn:E.
  - eexists. split; [reflexivity |]. unfold Js.in_unit_interval. simpl. lia.
  - exists r. split; [reflexivity |]. by inversion H.
Qed.

Lemma generateRoomCode_loop_spec n : forall code w,
  draws_valid w ->
  exists code',
    generateRoomCode_loop n code w = (Ok code', after_draws n w)
    /\ String.length code' = (String.length code + n)%nat
    /\ (over (units chars) code -> over (units chars) code').
Proof.
  induction n as [| n IH]; intros code w Hw; cbn [generateRoomCode_loop].
  - exists code. unfold ret, after_draws. rewrite drop_0.
    destruct w; simpl. split; [reflexivity |]. split; [lia | tauto].
  - destruct (Math_random_spec w Hw) as (r & Hr & Hv).
    unfold bind at 1. rewrite Hr.
    pose proof (floor_mul_range r (Z.of_nat (String.length chars)) Hv) as Hq.
    destruct (charAt_in_range chars
                (Z.to_nat (Js.floor_mul r (Z.of_nat (String.length chars)))))
      as (c & Hc & Hin); [simpl in *; lia |].
    rewrite Hc.
    destruct (IH (code ++ String c "") (after_draws 1 w)) as (code' & Hrun & Hlen & Hov).
    { by apply draws_valid_after. }
    exists code'. rewrite Hrun, after_draws_S. split; [reflexivity |]. split.
    + rewrite Hlen, <- !length_units, units_app, List.length_app. simpl. lia.
    + intros Hcode. apply Hov. unfold over. rewrite units_app.
      apply Forall_app. split; [exact Hcode |].
      constructor; [exact Hin | constructor].
Qed.

(** [generateRoomCode] always returns, and what it returns is six
    characters of [chars]. *)
Lemma generateRoomCode_spec w :
  draws_valid w ->
  exists code,
    generateRoomCode w = (Ok code, after_draws 6 w) /\ well_formed_code code.
Proof.
  intros Hw. unfold generateRoomCode.
  destruct (generateRoomCode_loop_spec 6 "" w Hw) as (code & Hrun & Hlen & Hov).
  exists code. split; [exact Hrun |]. split; [exact Hlen |].
  apply Hov. constructor.
Qed.

Lemma createRoom_loop_code n : forall code w code' w',
  draws_valid w -> well_formed_code code ->
  createRoom_loop n code w = (Ok code', w') ->
  well_formed_code code'.
Proof.
  induction n as [| n IH]; intros code w code' w' Hw Hcode Hrun; simpl in Hrun.
  - unfold ret in Hrun. congruence.
  - unfold bind at 1 in Hrun. unfold getDoc, bind, round_trip in Hrun.
    destruct (faults w) as [| [|] fs] eqn:Ef; simpl in Hrun; try discriminate.
    + destruct (rooms w !! code); [| unfold ret in Hrun; congruence].
      match type of Hrun with context [generateRoomCode ?w0] =>
        destruct (generateRoomCode_spec w0) as (c1 & Hg & Hwf); [exact Hw |];
        rewrite Hg in Hrun; eapply IH; [| exact Hwf | exact Hrun] end.
      by apply draws_valid_after.
    + destruct (rooms w !! code); [| unfold ret in Hrun; congruence].
      match type of Hrun with context [generateRoomCode ?w0] =>
        destruct (generateRoomCode_spec w0) as (c1 & Hg & Hwf); [exact Hw |];
        rewrite Hg in Hrun; eapply IH; [| exact Hwf | exact Hrun] end.
      by apply draws_valid_after.
Qed.

Lemma chars_length : String.length chars = 32%nat.
Proof. reflexivity. Qed.

Lemma chars_NoDup : NoDup (units chars).
Proof. apply (bool_decide_unpack _). vm_compute. exact I. Qed.

Lemma member_In c l : member c l = true <-> In c l.
Proof.
  unfold member. rewrite existsb_exists. split.
  - intros (x & Hx & He). apply Ascii.eqb_eq in He. by subst.
  - intros H. exists c. split; [exact H | apply Ascii.eqb_refl].
Qed.

Lemma allowed_check c :
  (Js.is_upper c || Js.is_digit c) && negb (member c ambiguous)
  = member c (units chars).
Proof.
  destruct c as [[|] [|] [|] [|] [|] [|] [|] [|]]; vm_compute; reflexivity.
Qed.

(** [chars] is exactly the set of upper-case letters and digits without
    the four confusing characters. *)
Lemma allowed_iff_chars c : allowed c <-> In c (units chars).
Proof.
  rewrite <- member_In, <- allowed_check. unfold allowed.
  rewrite andb_true_iff, negb_true_iff, <- not_true_iff_false, member_In.
  reflexivity.
Qed.

(** ** createRoom *)

(** [createRoom] never throws: every failure is caught. *)
Lemma createRoom_returns s w : exists s' w', createRoom s w = (Ok s', w').
Proof.
  unfold createRoom, try_catch.
  match goal with |- context [match ?m w with _ => _ end] => destruct (m w) as [[a |] w1] end;
    unfold ret; eauto.
Qed.

(** Code generation and the collision check leave the server's time
    alone. *)
Lemma generateRoomCode_loop_clock n : forall acc w c w',
  generateRoomCode_loop n acc w = (Ok c, w') -> clock w' = clock w.
Proof.
  induction n as [| n IH]; intros acc w c w'; simpl.
  - unfold ret. congruence.
  - unfold bind, Math_random.
    destruct (random w); intros H; apply IH in H; exact H.
Qed.

Lemma createRoom_loop_clock n : forall code w c w',
  createRoom_loop n code w = (Ok c, w') -> clock w' = clock w.
Proof.
  induction n as [| n IH]; intros code w c w'; simpl.
  - unfold ret. congruence.
  - unfold bind at 1. unfold getDoc, bind, round_trip.
    destruct (faults w) as [| [|] fs]; simpl; try discriminate;
      (destruct (rooms w !! code);
         [| unfold ret; intros H; inversion H; reflexivity]);
      match goal with |- context [generateRoomCode ?w3] =>
        destruct (generateRoomCode w3) as [[c1 |] w4] eqn:Hg; [| discriminate] end;
      intros H; apply IH in H;
      apply generateRoomCode_loop_clock in Hg; simpl in Hg; congruence.
Qed.

(** Code generation only draws random numbers. *)
Lemma generateRoomCode_loop_store n : forall acc w,
  exists c w',
    generateRoomCode_loop n acc w = (Ok c, w')
    /\ rooms w' = rooms w /\ faults w' = faults w /\ clock w' = clock w.
Proof.
  induction n as [| n IH]; intros acc w; simpl.
  - exists acc, w. auto.
  - unfold bind, Math_random.
    destruct (random w) as [| r rs];
      match goal with |- context [generateRoomCode_loop n ?a ?w1] =>
        destruct (IH a w1) as (c & w' & E & H1 & H2 & H3) end;
      exists c, w'; rewrite E; auto.
Qed.

(** The collision check only reads. *)
Lemma createRoom_loop_store n : forall code w res w',
  createRoom_loop n code w = (res, w') ->
  rooms w' = rooms w /\ clock w' = clock w /\ (faults w = [] -> faults w' = []).
Proof.
  induction n as [| n IH]; intros code w res w'; simpl.
  - unfold ret. intros [= _ <-]. auto.
  - unfold bind at 1. unfold getDoc, bind, round_trip.
    destruct (faults w) as [| [|] fs] eqn:Ef; simpl;
      try (intros [= _ <-]; simpl; split; [reflexivity |];
           split; [reflexivity | discriminate]);
      (destruct (rooms w !! code);
       [| unfold ret; intros [= _ <-]; simpl; split; [reflexivity |];
          split; [reflexivity | try discriminate; auto]]);
      unfold generateRoomCode;
      match goal with |- context [generateRoomCode_loop 6 ?a ?w1] =>
        destruct (generateRoomCode_loop_store 6 a w1)
          as (c & w2 & E & H1 & H2 & H3) end;
      rewrite E; intros H; apply IH in H; destruct H as (G1 & G2 & G3);
      simpl in *; (split; [congruence |]); (split; [congruence |]);
      intros; try discriminate; apply G3; congruence.
Qed.

(** [createRoom] in any world: it returns, to the same player, and either
    leaves the collection as it is or writes one fresh room of that
    player, stamped with the server's time. *)
Lemma createRoom_store s w :
  exists s' w',
    createRoom s w = (Ok s', w')
    /\ playerId s' = playerId s
    /\ (faults w = [] -> faults w' = [])
    /\ (rooms w' = rooms w
        \/ exists key,
             rooms w' = <[key := freshRoom (playerId s) (clock w)]> (rooms w)).
Proof.
  unfold createRoom, try_catch. unfold bind at 1. unfold generateRoomCode.
  destruct (generateRoomCode_loop_store 6 "" w) as (c & w1 & E & H1 & H2 & H3).
  rewrite E. unfold bind at 1.
  destruct (createRoom_loop 10 c w1) as [[code |] w2] eqn:Hloop;
    apply createRoom_loop_store in Hloop; destruct Hloop as (G1 & G2 & G3).
  - unfold bind, serverTimestamp, setDoc, bind, round_trip, ret, with_rooms.
    destruct (faults w2) as [| [|] fs] eqn:Ef; simpl;
      eexists _, _; (split; [reflexivity |]); (split; [reflexivity |]); simpl.
    + split; [reflexivity |]. right. exists code. congruence.
    + split; [intros Hf; rewrite H2 in G3; apply G3 in Hf; congruence |].
      left. congruence.
    + split; [intros Hf; rewrite H2 in G3; apply G3 in Hf; congruence |].
      right. exists code. congruence.
  - unfold ret. eexists _, _. split; [reflexivity |]. split; [reflexivity |].
    split; [intros Hf; apply G3; congruence |]. left. congruence.
Qed.

(** A call that ends in [waiting] stored the room under the code it
    reports, and that code came out of [generateRoomCode]. *)
Lemma createRoom_success s w s' w' :
  draws_valid w ->
  createRoom s w = (Ok s', w') ->
  battleState s' = BWaiting ->
  exists code,
    roomCode s' = Some code /\ playerRole s' = Some Host
    /\ well_formed_code code
    /\ rooms w' !! code = Some (freshRoom (playerId s) (clock w)).
Proof.
  intros Hw Hrun Hst. unfold createRoom, try_catch in Hrun.
  unfold bind at 1 in Hrun.
  destruct (generateRoomCode_spec w Hw) as (c0 & Hg & Hwf0). rewrite Hg in Hrun.
  unfold bind at 1 in Hrun.
  destruct (createRoom_loop 10 c0 (after_draws 6 w)) as [[code |] w1] eqn:Hloop.
  2:{ unfold ret in Hrun. inversion Hrun; subst. discriminate Hst. }
  assert (Hck : clock w1 = clock w) by (apply createRoom_loop_clock in Hloop; exact Hloop).
  apply createRoom_loop_code in Hloop; [| by apply draws_valid_after | exact Hwf0].
  unfold bind, serverTimestamp, setDoc, bind, round_trip, ret in Hrun.
  destruct (faults w1) as [| [|] fs]; simpl in Hrun;
    inversion Hrun; subst; try discriminate Hst;
    (exists code; simpl; rewrite lookup_insert_eq, Hck; auto).
Qed.

Lemma room_code_claim_32 : room_code_claim 32.
Proof.
  exists (units chars). split; [reflexivity |]. split; [apply chars_NoDup |].
  split; [apply Forall_forall; intros c Hc; apply list_elem_of_In in Hc;
          by apply allowed_iff_chars |].
  intros s w s' w' Hw Hrun Hst.
  destruct (createRoom_success s w s' w' Hw Hrun Hst) as (code & Hc & _ & [Hl Ho] & _).
  exists code. auto.
Qed.

(** C7, as the claim states it: there is no such alphabet of 33
    characters, since only 32 characters are upper-case letters or digits
    other than 0, O, 1 and I. *)
Lemma room_code_claim_33_fails : ~ room_code_claim 33.
Proof.
  intros (alphabet & Hlen & Hnd & Hall & _).
  assert (Hsub : alphabet ⊆+ units chars).
  { apply NoDup_submseteq; [exact Hnd |].
    intros c Hc. apply list_elem_of_In, allowed_iff_chars.
    rewrite Forall_forall in Hall. by apply Hall. }
  apply submseteq_length in Hsub. rewrite Hlen in Hsub.
  change (List.length (units chars)) with 32%nat in Hsub. lia.
Qed.

(** C7 (amended): every room code that [createRoom] reports has six
    characters, each drawn from [chars]; [chars] has 32 distinct
    characters, which are exactly the upper-case letters and digits other
    than 0, O, 1 and I. *)
Theorem createRoom_code_format s w s' w' :
  draws_valid w ->
  createRoom s w = (Ok s', w') ->
  battleState s' = BWaiting ->
  exists code,
    roomCode s' = Some code
    /\ String.length code = 6%nat
    /\ over (units chars) code
    /\ List.length (units chars) = 32%nat
    /\ NoDup (units chars)
    /\ (forall c, In c (units chars) <-> allowed c).
Proof.
  intros Hw Hrun Hst.
  destruct (createRoom_success s w s' w' Hw Hrun Hst) as (code & Hc & _ & [Hl Ho] & _).
  exists code. split; [exact Hc |]. split; [exact Hl |]. split; [exact Ho |].
  split; [reflexivity |]. split; [apply chars_NoDup |].
  intros c. symmetry. apply allowed_iff_chars.
Qed.

Lemma createRoom_code_format_witness :
  exists code,
    roomCode hosting_S9SA9S = Some code
    /\ String.length code = 6%nat
    /\ over (units chars) code
    /\ List.length (units chars) = 32%nat
    /\ NoDup (units chars)
    /\ (forall c, In c (units chars) <-> allowed c).
Proof.
  apply (createRoom_code_format (idle "player_a") six_draws_world hosting_S9SA9S
           (with_rooms (insert "S9SA9S" (freshRoom "player_a" 1000%N))
              (after_draws 6 six_draws_world))).
  - unfold draws_valid, six_draws_world, half, late, Js.in_unit_interval. simpl.
    repeat constructor; simpl; lia.
  - vm_compute. reflexivity.
  - reflexivity.
Defined.

(** *** Exhausted retries *)

(** C3: with ten collisions in a row [createRoom] does not fail.  It
    reports no error, ends in [waiting] as host of the eleventh code, which
    it never looked up, and its write replaces the room stored there. *)
Theorem createRoom_exhausted_retries_overwrite :
  let out := createRoom (idle "player_b") crowded_world in
  Forall (fun c => rooms crowded_world !! c = Some other_match) taken_codes
  /\ out.1 = Ok {| playerId := "player_b"; roomCode := Some "LLLLLL";
                   room := None; playerRole := Some Host;
                   battleState := BWaiting; error := None |}
  /\ rooms out.2 !! "LLLLLL" = Some (freshRoom "player_b" 1000%N).
Proof.
  split; [| split].
  - repeat constructor.
  - vm_compute. reflexivity.
  - vm_compute. reflexivity.
Qed.

(** When the store cannot be reached [createRoom] does fail: the error
    is reported, the state returns to [idle] and nothing is written. *)
Lemma createRoom_transport_failure s w fs :
  faults w = true :: fs ->
  exists s' w',
    createRoom s w = (Ok s', w')
    /\ error s' = Some msg_create_failed
    /\ battleState s' = BIdle
    /\ rooms w' = rooms w.
Proof.
  intros Hf. unfold createRoom, try_catch.
  assert (Hg : forall n acc w0, exists c,
             generateRoomCode_loop n acc w0 = (Ok c, after_draws n w0)).
  { induction n as [| n IH]; intros acc w0; simpl.
    - exists acc. unfold ret, after_draws. rewrite drop_0. by destruct w0.
    - unfold bind, Math_random.
      destruct (random w0) as [| r rs] eqn:Er.
      + match goal with |- context [generateRoomCode_loop n ?a ?w1] =>
          destruct (IH a w1) as (c & Hc) end.
        exists c. rewrite Hc. unfold after_draws. simpl. rewrite Er.
        by rewrite !drop_nil.
      + match goal with |- context [generateRoomCode_loop n ?a ?w1] =>
          destruct (IH a w1) as (c & Hc) end.
        exists c. rewrite Hc. unfold after_draws. simpl. by rewrite Er. }
  unfold bind at 1. unfold generateRoomCode.
  destruct (Hg 6%nat "" w) as (c & Hc). rewrite Hc.
  unfold bind at 1. simpl createRoom_loop.
  unfold bind at 1. unfold getDoc, bind, round_trip. simpl. rewrite Hf.
  unfold ret. eexists _, _. split; [reflexivity |]. simpl. auto.
Qed.

Example crowded_world_draws_valid : draws_valid crowded_world.
Proof.
  unfold draws_valid, Js.in_unit_interval. simpl.
  repeat constructor; simpl; lia.
Qed.

(** ** joinRoom *)




Example joinRoom_lobby :
  (joinRoom "ab23cd" (idle "player_g") (quiet lobby)).1
  = Ok (true, {| playerId := "player_g"; roomCode := Some "AB23CD";
                 room := None; playerRole := Some Guest;
                 battleState := BReady; error := None |}).
Proof. vm_compute. reflexivity. Qed.

(** A call that returns true has updated the room under the upper-cased
    code and stored that code locally. *)
Lemma joinRoom_true code s w s' w' :
  joinRoom code s w = (Ok (true, s'), w') ->
  roomCode s' = Some (Js.toUpperCase code)
  /\ exists r, rooms w !! Js.toUpperCase code = Some r
               /\ rooms w' = <[Js.toUpperCase code := joined (playerId s) r]> (rooms w).
Proof.
  unfold joinRoom. store_steps.
  destruct (faults w) as [| [|] fs] eqn:Ef; simpl;
    try (destruct (rooms w !! Js.toUpperCase code) as [r |] eqn:Er; simpl;
         [destruct (Js.truthy (guestId r)); simpl;
          [| destruct (bool_decide (status r = Waiting)); simpl;
             [try (destruct fs as [| [|] fs']; simpl); rewrite ?Er |]] |]);
    intros H; inversion H; subst; simpl; split; eauto.
Qed.

(** C9: the code argument of [joinRoom] is case-insensitive.  A call with
    the upper-cased code is the same computation, and a successful call
    looked up and updated the room under the upper-cased code and stored
    the upper-cased code as the local [roomCode]. *)
Theorem joinRoom_case_insensitive c s w :
  joinRoom (Js.toUpperCase c) s w = joinRoom c s w
  /\ forall s' w',
       joinRoom c s w = (Ok (true, s'), w') ->
       roomCode s' = Some (Js.toUpperCase c)
       /\ exists r, rooms w !! Js.toUpperCase c = Some r
                    /\ rooms w' = <[Js.toUpperCase c := joined (playerId s) r]> (rooms w).
Proof.
  split.
  - unfold joinRoom. rewrite toUpperCase_idem. reflexivity.
  - intros s' w'. apply joinRoom_true.
Qed.

Lemma joinRoom_case_insensitive_witness :
  roomCode guest_of_AB23CD = Some (Js.toUpperCase "ab23cd")
  /\ exists r, rooms (quiet lobby) !! Js.toUpperCase "ab23cd" = Some r
               /\ rooms (quiet (<["AB23CD" := joined "player_g" (freshRoom "player_h" 900%N)]> lobby))
                  = <[Js.toUpperCase "ab23cd" := joined (playerId (idle "player_g")) r]>
                      (rooms (quiet lobby)).
Proof.
  apply (proj2 (joinRoom_case_insensitive "ab23cd" (idle "player_g") (quiet lobby))).
  vm_compute. reflexivity.
Defined.

(** ** leaveRoom *)

(** C8: [leaveRoom] always resets the caller's local state.  While the
    store is reachable, the host's call deletes the room, after which the
    snapshot that any subscribed client receives for that code resets it to
    [idle]; the guest's call sets [guestId] to null and [status] to
    [waiting] and keeps every other field of the room. *)
Theorem leaveRoom_effects s w code role :
  roomCode s = Some code -> code <> "" -> playerRole s = Some role ->
  exists s' w',
    leaveRoom s w = (Ok s', w')
    /\ (roomCode s' = None /\ room s' = None /\ playerRole s' = None
        /\ battleState s' = BIdle /\ error s' = None)
    /\ (round_trips_ok 1 w = true ->
        match role with
        | Host =>
            rooms w' = delete code (rooms w)
            /\ forall g : Session,
                 let g' := onSnapshot (rooms w' !! code) g in
                 battleState g' = BIdle /\ roomCode g' = None
                 /\ room g' = None /\ playerRole g' = None
        | Guest =>
            match rooms w !! code with
            | Some r => rooms w' = <[code := guest_left r]> (rooms w)
            | None => rooms w' = rooms w
            end
        end).
Proof.
  intros Hc Hne Hr. unfold leaveRoom. rewrite Hc, Hr.
  destruct code as [| a code]; [contradiction |].
  destruct role; store_steps; unfold round_trips_ok;
    destruct (faults w) as [| [|] fs] eqn:Ef; simpl;
    try destruct (rooms w !! String a code) as [r |] eqn:Er; simpl;
    eexists _, _; (split; [reflexivity |]); simpl;
    (split; [auto 10 |]); try discriminate; intros _;
    try (split; [reflexivity |]; intros g; rewrite lookup_delete_eq; simpl; auto);
    reflexivity.
Qed.

Lemma leaveRoom_effects_witness :
  exists s' w',
    leaveRoom (in_room "player_g" "AB23CD" Guest full_room)
      (quiet {[ "AB23CD" := full_room ]}) = (Ok s', w')
    /\ (roomCode s' = None /\ room s' = None /\ playerRole s' = None
        /\ battleState s' = BIdle /\ error s' = None)
    /\ (round_trips_ok 1 (quiet {[ "AB23CD" := full_room ]}) = true ->
        match rooms (quiet {[ "AB23CD" := full_room ]}) !! "AB23CD" with
        | Some r => rooms w' = <["AB23CD" := guest_left r]>
                                 (rooms (quiet {[ "AB23CD" := full_room ]}))
        | None => rooms w' = rooms (quiet {[ "AB23CD" := full_room ]})
        end).
Proof.
  apply (leaveRoom_effects (in_room "player_g" "AB23CD" Guest full_room)
           (quiet {[ "AB23CD" := full_room ]}) "AB23CD" Guest).
  - reflexivity.
  - discriminate.
  - reflexivity.
Defined.

Example leaveRoom_guest_reopens :
  rooms (leaveRoom (in_room "player_g" "AB23CD" Guest full_room)
           (quiet {[ "AB23CD" := full_room ]})).2 !! "AB23CD"
  = Some (freshRoom "player_h" 900%N).
Proof. vm_compute. reflexivity. Qed.

(** Scenario of the specification: the host leaves a waiting room, and a
    guest who then tries the code is told that the room was not found. *)
Example leaveRoom_host_then_join :
  let w1 := (leaveRoom (in_room "player_h" "AB23CD" Host (freshRoom "player_h" 900%N))
               (quiet lobby)).2 in
  rooms w1 !! "AB23CD" = None
  /\ (joinRoom "AB23CD" (idle "player_g") w1).1
     = Ok (false, {| playerId := "player_g"; roomCode := None; room := None;
                     playerRole := None; battleState := BIdle;
                     error := Some msg_not_found |}).
Proof. split; vm_compute; reflexivity. Qed.

(** ** playAgain *)

(** C10: when the host restarts a match and the creature service and the
    store answer, one update replaces the room by [restarted]: status
    [countdown], round 1, scores 0-0, and [roundWinner], [gameWinner] and
    both guesses null.  So [gameWinner] is set exactly when the status is
    [finished] (neither holds) and the round starts without guesses. *)
Theorem playAgain_restart s w code r p rest :
  roomCode s = Some code -> code <> "" -> playerRole s = Some Host ->
  rooms w !! code = Some r ->
  round_trips_ok 1 w = true ->
  pokeapi w = Some p :: rest ->
  exists w',
    playAgain s w = (Ok tt, w')
    /\ rooms w' = <[code := restarted p (clock w) r]> (rooms w)
    /\ forall r', rooms w' !! code = Some r' ->
         status r' = Countdown
         /\ scores r' = {| host := 0; guest := 0 |}
         /\ currentRound r' = 1
         /\ roundWinner r' = None
         /\ (is_Some (gameWinner r') <-> status r' = Finished)
         /\ hostGuess r' = None /\ guestGuess r' = None.
Proof.
  intros Hc Hne Hr Hroom Hok Hp. unfold playAgain. rewrite Hc, Hr.
  destruct code as [| a code]; [contradiction |].
  unfold fetchRandomPokemon, fetch_pokemon, Math_random. store_steps.
  rewrite Hp. unfold round_trips_ok in Hok.
  destruct (random w); destruct (faults w) as [| [|] fs]; simpl in *;
    try discriminate; rewrite Hroom;
    (eexists; split; [reflexivity |]; simpl; split; [reflexivity |];
     intros r'; rewrite lookup_insert_eq; intros [= <-]; simpl;
     repeat split; try reflexivity;
     [intros [x Hx]; discriminate | discriminate]).
Qed.

Lemma playAgain_restart_witness :
  exists w',
    playAgain (in_room "player_h" "AB23CD" Host finished_match) rematch_world
    = (Ok tt, w')
    /\ rooms w' = <["AB23CD" := restarted eevee (clock rematch_world) finished_match]>
                    (rooms rematch_world)
    /\ forall r', rooms w' !! "AB23CD" = Some r' ->
         status r' = Countdown
         /\ scores r' = {| host := 0; guest := 0 |}
         /\ currentRound r' = 1
         /\ roundWinner r' = None
         /\ (is_Some (gameWinner r') <-> status r' = Finished)
         /\ hostGuess r' = None /\ guestGuess r' = None.
Proof.
  apply (playAgain_restart (in_room "player_h" "AB23CD" Host finished_match)
           rematch_world "AB23CD" finished_match eevee []).
  - reflexivity.
  - discriminate.
  - reflexivity.
  - vm_compute. reflexivity.
  - reflexivity.
  - reflexivity.
Defined.

(** ** submitGuess *)

Lemma submitGuess_eligible text s w code role r pokemon :
  eligible s code role r pokemon ->
  submitGuess text s w
  = (Ok (correct (guessData_of text pokemon (clock w))),
     write_guess code role r (guessData_of text pokemon (clock w)) w).
Proof.
  intros (Hc & Hne & Hroom & Hrole & Hst & Hp & Hg).
  unfold submitGuess, write_guess. rewrite Hc, Hroom, Hrole.
  destruct code as [| a code]; [contradiction |].
  rewrite Hst, Hp, Hg. simpl. store_steps. unfold after_round_trip, guessData_of.
  destruct (faults w) as [| [|] fs]; simpl; try reflexivity;
    destruct (rooms w !! String a code); reflexivity.
Qed.

Lemma submitGuess_ineligible text s w r :
  room s = Some r ->
  status r <> Playing \/ currentPokemon r = None
  \/ (exists role, playerRole s = Some role /\ is_Some (guess_of role r)) ->
  submitGuess text s w = (Ok false, w).
Proof.
  intros Hroom H. unfold submitGuess. rewrite Hroom.
  destruct (roomCode s) as [[| a code] |]; try reflexivity.
  destruct (playerRole s) as [role |] eqn:Hrole; try reflexivity.
  destruct (bool_decide (status r = Playing)) eqn:Hst; simpl; [| reflexivity].
  apply bool_decide_eq_true in Hst.
  destruct (currentPokemon r) as [pokemon |] eqn:Hp; [| reflexivity].
  destruct (guess_of role r) eqn:Hg; [reflexivity |].
  destruct H as [H | [H | (role' & Hr' & [x Hx])]]; try congruence.
Qed.

(** The builtins of [Js] agree with the tables of the specification's
    normalization, code unit by code unit. *)
Lemma lower_char_table c :
  Js.lower_char c = translate capital_letters small_letters c.
Proof. destruct c as [[] [] [] [] [] [] [] []]; vm_compute; reflexivity. Qed.

Lemma is_space_table c : Js.is_space c = member c white_space.
Proof. destruct c as [[] [] [] [] [] [] [] []]; vm_compute; reflexivity. Qed.

(** The pattern [[^a-z0-9]] leaves the capital letters out of the
    alphanumerics; after lower-casing there are none. *)
Lemma keeps_table c : member c alphanumeric = Js.keeps c || Js.is_upper c.
Proof. destruct c as [[] [] [] [] [] [] [] []]; vm_compute; reflexivity. Qed.

Lemma lower_char_not_upper c : Js.is_upper (Js.lower_char c) = false.
Proof. destruct c as [[] [] [] [] [] [] [] []]; vm_compute; reflexivity. Qed.

Lemma toLowerCase_no_capitals s :
  Forall (fun c => Js.is_upper c = false) (units (Js.toLowerCase s)).
Proof.
  unfold units, Js.toLowerCase. induction s as [| c s IH]; simpl;
    constructor; [apply lower_char_not_upper | exact IH].
Qed.

Lemma drop_leading_space_Forall (P : ascii -> Prop) l :
  Forall P l -> Forall P (drop_leading_space l).
Proof.
  induction 1 as [| c l Hc Hl IH]; [constructor |].
  cbn [drop_leading_space].
  destruct (member c white_space); [exact IH | by constructor].
Qed.

Lemma spec_trim_Forall (P : ascii -> Prop) l :
  Forall P l -> Forall P (spec_trim l).
Proof.
  intros H. unfold spec_trim.
  apply Forall_rev, drop_leading_space_Forall, Forall_rev,
    drop_leading_space_Forall, H.
Qed.

Lemma units_toLowerCase s : units (Js.toLowerCase s) = spec_lowercase (units s).
Proof.
  unfold Js.toLowerCase, spec_lowercase, units.
  induction s as [| c s IH]; simpl; [reflexivity |].
  rewrite lower_char_table, IH. reflexivity.
Qed.

Lemma units_trimStart s : units (Js.trimStart s) = drop_leading_space (units s).
Proof.
  unfold units. induction s as [| c s IH]; [reflexivity |].
  cbn [Js.trimStart list_ascii_of_string drop_leading_space].
  rewrite <- is_space_table. destruct (Js.is_space c); [exact IH | reflexivity].
Qed.

Lemma drop_leading_space_snoc l c :
  drop_leading_space (l ++ [c])%list
  = match drop_leading_space l with
    | [] => if member c white_space then [] else [c]
    | t => (t ++ [c])%list
    end.
Proof.
  induction l as [| a l IH]; [reflexivity |].
  cbn [app drop_leading_space].
  destruct (member a white_space); [exact IH | reflexivity].
Qed.

Lemma units_trimEnd s :
  units (Js.trimEnd s) = rev (drop_leading_space (rev (units s))).
Proof.
  unfold units. induction s as [| c s IH]; [reflexivity |].
  cbn [Js.trimEnd list_ascii_of_string rev].
  rewrite drop_leading_space_snoc, <- is_space_table.
  destruct (Js.trimEnd s) as [| d t] eqn:Ht.
  - simpl in IH.
    destruct (drop_leading_space (rev (list_ascii_of_string s))) as [| x l].
    + destruct (Js.is_space c); reflexivity.
    + simpl in IH. symmetry in IH. apply app_eq_nil in IH as [_ IH].
      discriminate.
  - destruct (drop_leading_space (rev (list_ascii_of_string s))) as [| x l].
    + discriminate.
    + rewrite rev_app_distr. simpl. f_equal. exact IH.
Qed.

Lemma units_trim s : units (Js.trim s) = spec_trim (units s).
Proof.
  unfold Js.trim, spec_trim. by rewrite units_trimEnd, units_trimStart.
Qed.

Lemma units_strip_non_alnum s :
  Forall (fun c => Js.is_upper c = false) (units s) ->
  units (Js.strip_non_alnum s) = spec_strip (units s).
Proof.
  unfold units, spec_strip. induction s as [| c s IH]; [reflexivity |].
  cbn [Js.strip_non_alnum list_ascii_of_string List.filter].
  intros H. apply Forall_cons in H as [Hc Hs].
  rewrite keeps_table, Hc, orb_false_r.
  destruct (Js.keeps c); cbn [list_ascii_of_string]; by rewrite IH.
Qed.

(** The value the code compares is the specification's normal form, for
    the guess (trimmed in the code) and for the name (not trimmed in the
    code, where removing the non-alphanumerics makes up for it). *)
Lemma normalizeGuess_spec text : normalizeGuess text = spec_normalize text.
Proof.
  unfold normalizeGuess, spec_normalize.
  rewrite <- units_toLowerCase, <- units_trim, <- units_strip_non_alnum.
  - unfold units. by rewrite string_of_list_ascii_of_string.
  - rewrite units_trim. apply spec_trim_Forall, toLowerCase_no_capitals.
Qed.

Lemma normalizeAnswer_spec text : normalizeAnswer text = spec_normalize text.
Proof. by rewrite <- normalizeGuess_normalizeAnswer, normalizeGuess_spec. Qed.

Example spec_normalize_pikachu : spec_normalize " Pika-Chu! " = "pikachu".
Proof. reflexivity. Qed.

Example spec_normalize_mr_mime : spec_normalize "MR. MIME" = "mrmime".
Proof. reflexivity. Qed.

Example spec_normalize_farfetchd : spec_normalize "Farfetch'd 83" = "farfetchd83".
Proof. reflexivity. Qed.

(** C2: for an eligible call, [submitGuess] returns true exactly when the
    guess and the creature's name agree after lower-casing, trimming and
    removing every character that is not a letter or a digit
    ([spec_normalize], the normalization in the words of the
    specification). *)
Theorem submitGuess_returns_match text s w code role r pokemon :
  roomCode s = Some code -> code <> "" -> room s = Some r ->
  playerRole s = Some role -> status r = Playing ->
  currentPokemon r = Some pokemon -> guess_of role r = None ->
  exists b w',
    submitGuess text s w = (Ok b, w')
    /\ (b = true <-> spec_normalize text = spec_normalize (name pokemon)).
Proof.
  intros Hc Hne Hroom Hrole Hst Hp Hg.
  rewrite (submitGuess_eligible text s w code role r pokemon) by (red; auto 10).
  eexists _, _. split; [reflexivity |]. simpl.
  rewrite normalizeGuess_spec, normalizeAnswer_spec.
  apply String.eqb_eq.
Qed.

(** A guess in capitals, with spaces and punctuation, is accepted. *)
Lemma submitGuess_returns_match_witness :
  spec_normalize " Pika-Chu! " = "pikachu"
  /\ spec_normalize (name pikachu) = "pikachu"
  /\ exists w',
       submitGuess " Pika-Chu! "
         (in_room "player_g" "AB23CD" Guest (playing_room 1 0 0))
         (quiet {[ "AB23CD" := playing_room 1 0 0 ]}) = (Ok true, w').
Proof.
  split; [reflexivity |]. split; [reflexivity |].
  destruct (submitGuess_returns_match " Pika-Chu! "
              (in_room "player_g" "AB23CD" Guest (playing_room 1 0 0))
              (quiet {[ "AB23CD" := playing_room 1 0 0 ]})
              "AB23CD" Guest (playing_room 1 0 0) pikachu)
    as (b & w' & Hrun & Hb); try solve [reflexivity | discriminate].
  exists w'. rewrite Hrun.
  destruct Hb as [_ Hb]. by rewrite Hb.
Defined.

(** The other way round: another creature's name is rejected, and so is
    the name with a digit added. *)
Example submitGuess_rejects_other_names :
  (submitGuess "Raichu" (in_room "player_g" "AB23CD" Guest (playing_room 1 0 0))
     (quiet {[ "AB23CD" := playing_room 1 0 0 ]})).1 = Ok false
  /\ (submitGuess "pikachu2" (in_room "player_g" "AB23CD" Guest (playing_room 1 0 0))
        (quiet {[ "AB23CD" := playing_room 1 0 0 ]})).1 = Ok false.
Proof. split; vm_compute; reflexivity. Qed.

(** Scenario of the specification: the guest answers "pikachu" in round 1. *)
Example submitGuess_guest_wins_round :
  let out := submitGuess "pikachu" (in_room "player_g" "AB23CD" Guest (playing_room 1 0 0))
               (quiet {[ "AB23CD" := playing_room 1 0 0 ]}) in
  out.1 = Ok true
  /\ (scores <$> rooms out.2 !! "AB23CD") = Some {| host := 0; guest := 1 |}
  /\ (status <$> rooms out.2 !! "AB23CD") = Some RoundEnd
  /\ (roundWinner <$> rooms out.2 !! "AB23CD") = Some (Some (WonBy Guest)).
Proof. repeat split; vm_compute; reflexivity. Qed.

(** The update of an eligible guess records the caller's guess. *)
Lemma guessPatch_records role r gd stored :
  guess_of role (apply_patch (guessPatch role r gd) stored) = Some gd.
Proof.
  unfold guessPatch, apply_patch. patch_cases role r gd.
Qed.

(** The update keeps the creature. *)
Lemma guessPatch_pokemon role r gd stored :
  currentPokemon (apply_patch (guessPatch role r gd) stored) = currentPokemon stored.
Proof.
  unfold guessPatch, apply_patch. patch_cases role r gd.
Qed.

(** C5: [submitGuess] returns false and leaves the world as it is when
    the room is not [playing], has no creature, or already holds a guess
    of the caller.  In particular, once a call has gone through the store
    and its snapshot has come back, a second call of the same player
    returns false and writes nothing. *)
Theorem submitGuess_noop text s w :
  (forall r,
     room s = Some r ->
     status r <> Playing \/ currentPokemon r = None
     \/ (exists role, playerRole s = Some role /\ is_Some (guess_of role r)) ->
     submitGuess text s w = (Ok false, w))
  /\ (forall code role r pokemon first b1 w1,
        eligible s code role r pokemon ->
        rooms w !! code = Some r ->
        round_trips_ok 1 w = true ->
        submitGuess first s w = (Ok b1, w1) ->
        (exists r1, rooms w1 !! code = Some r1 /\ guess_of role r1 <> None)
        /\ submitGuess text (onSnapshot (rooms w1 !! code) s) w1 = (Ok false, w1)).
Proof.
  split; [intros r; apply submitGuess_ineligible |].
  intros code role r pokemon first b1 w1 Hel Hstore Hok Hrun.
  rewrite (submitGuess_eligible first s w code role r pokemon Hel) in Hrun.
  destruct Hel as (Hc & Hne & Hroom & Hrole & Hst & Hp & Hg).
  inversion Hrun as [[Hb Hw]]. clear Hrun.
  assert (Hlook : rooms (write_guess code role r (guessData_of first pokemon (clock w)) w) !! code
                  = Some (apply_patch (guessPatch role r (guessData_of first pokemon (clock w))) r)).
  { unfold write_guess, round_trips_ok in *.
    destruct (faults w) as [| [|] fs]; simpl in *; try discriminate;
      rewrite Hstore; simpl; apply lookup_insert_eq. }
  rewrite Hlook. split.
  - eexists. split; [reflexivity |]. rewrite guessPatch_records. discriminate.
  - eapply submitGuess_ineligible; [reflexivity |].
    right. right. exists role. split; [exact Hrole |].
    rewrite guessPatch_records. eauto.
Qed.

Lemma submitGuess_noop_witness :
  (exists r1,
     rooms (submitGuess "raichu" (in_room "player_g" "AB23CD" Guest (playing_room 1 0 0))
              (quiet {[ "AB23CD" := playing_room 1 0 0 ]})).2 !! "AB23CD" = Some r1
     /\ guess_of Guest r1 <> None)
  /\ submitGuess "pikachu"
       (onSnapshot
          (rooms (submitGuess "raichu" (in_room "player_g" "AB23CD" Guest (playing_room 1 0 0))
                    (quiet {[ "AB23CD" := playing_room 1 0 0 ]})).2 !! "AB23CD")
          (in_room "player_g" "AB23CD" Guest (playing_room 1 0 0)))
       (submitGuess "raichu" (in_room "player_g" "AB23CD" Guest (playing_room 1 0 0))
          (quiet {[ "AB23CD" := playing_room 1 0 0 ]})).2
     = (Ok false,
        (submitGuess "raichu" (in_room "player_g" "AB23CD" Guest (playing_room 1 0 0))
           (quiet {[ "AB23CD" := playing_room 1 0 0 ]})).2).
Proof.
  apply (proj2 (submitGuess_noop "pikachu"
                  (in_room "player_g" "AB23CD" Guest (playing_room 1 0 0))
                  (quiet {[ "AB23CD" := playing_room 1 0 0 ]}))
           "AB23CD" Guest (playing_room 1 0 0) pikachu "raichu" false).
  - repeat split; solve [reflexivity | discriminate].
  - vm_compute. reflexivity.
  - reflexivity.
  - vm_compute. reflexivity.
Defined.

(** ** Resolution of a round *)

Lemma resolution_status role r gd :
  resolves role r gd ->
  let r' := apply_patch (guessPatch role r gd) r in
  status r' = Finished \/ status r' = RoundEnd.
Proof.
  intros H. unfold guessPatch, apply_patch; cbv zeta.
  destruct H as [H | (og & Hog & Hc)].
  - rewrite H. destruct role; simpl;
      repeat match goal with
             | |- context [if ?b then _ else _] => destruct b; simpl
             end; auto.
  - destruct (correct gd); rewrite ?Hog, ?Hc; destruct role; simpl;
      repeat match goal with
             | |- context [if ?b then _ else _] => destruct b; simpl
             end; auto.
Qed.

(** In a room in play, a resolved round finishes the game exactly when it
    was the last round or a player has reached three points. *)
Lemma resolution_finished_iff role r gd :
  in_play r -> resolves role r gd ->
  let r' := apply_patch (guessPatch role r gd) r in
  status r' = Finished
  <-> (currentRound r' = totalRounds r'
       \/ host (scores r') = 3 \/ guest (scores r') = 3).
Proof.
  intros (Ht & Hr & Hh & Hg) H. unfold guessPatch, apply_patch; cbv zeta.
  destruct H as [H | (og & Hog & Hc)].
  - rewrite H. destruct role; simpl;
      destruct (currentRound r >=? 5) eqn:E1; simpl;
      try (destruct (_ + 1 >=? 3) eqn:E2; simpl);
      rewrite ?Ht; split; intros; try reflexivity; try lia; try discriminate.
  - destruct (correct gd) eqn:Hgd.
    + destruct role; simpl;
        destruct (currentRound r >=? 5) eqn:E1; simpl;
        try (destruct (_ + 1 >=? 3) eqn:E2; simpl);
        rewrite ?Ht; split; intros; try reflexivity; try lia; try discriminate.
    + rewrite Hog, Hc. destruct role; simpl;
        destruct (currentRound r >=? 5) eqn:E1; simpl;
        rewrite ?Ht; split; intros; try reflexivity; try lia; try discriminate.
Qed.

(** When the game finishes and the scores differ, [gameWinner] is the
    higher scorer. *)
Lemma resolution_winner_higher role r gd :
  resolves role r gd ->
  let r' := apply_patch (guessPatch role r gd) r in
  status r' = Finished ->
  (host (scores r') > guest (scores r') -> gameWinner r' = Some Host)
  /\ (guest (scores r') > host (scores r') -> gameWinner r' = Some Guest).
Proof.
  intros H. unfold guessPatch, apply_patch; cbv zeta.
  destruct H as [H | (og & Hog & Hc)].
  - rewrite H. destruct role; simpl;
      destruct (_ || _); simpl; try discriminate; intros _;
      destruct (_ >? _) eqn:E; split; intros; try reflexivity; lia.
  - destruct (correct gd) eqn:Hgd.
    + destruct role; simpl;
        destruct (_ || _); simpl; try discriminate; intros _;
        destruct (_ >? _) eqn:E; split; intros; try reflexivity; lia.
    + rewrite Hog, Hc. destruct role; simpl;
        destruct (currentRound r >=? 5); simpl; try discriminate; intros _;
        destruct (host (scores r) >? guest (scores r)) eqn:E1;
        destruct (guest (scores r) >? host (scores r)) eqn:E2;
        split; intros; try reflexivity; lia.
Qed.

(** When both players were wrong in the last round and the scores are
    level, [gameWinner] stays null. *)
Lemma resolution_tie_both_wrong role r gd og :
  correct gd = false -> guess_of (other role) r = Some og -> correct og = false ->
  let r' := apply_patch (guessPatch role r gd) r in
  gameWinner r = None ->
  status r' = Finished -> host (scores r') = guest (scores r') ->
  gameWinner r' = None.
Proof.
  intros Hgd Hog Hc. unfold guessPatch, apply_patch; cbv zeta. rewrite Hgd, Hog, Hc.
  destruct role; simpl;
    destruct (currentRound r >=? 5); simpl; try discriminate; intros Hw _ He;
    rewrite He; rewrite Z.gtb_ltb, Z.ltb_irrefl; reflexivity.
Qed.

(** When a correct guess in the last round levels the scores, [gameWinner]
    is the guest, whoever guessed. *)
Lemma resolution_tie_after_correct_guess role r gd :
  correct gd = true -> currentRound r >= 5 ->
  score_of role (scores r) + 1 = score_of (other role) (scores r) ->
  let r' := apply_patch (guessPatch role r gd) r in
  status r' = Finished
  /\ host (scores r') = guest (scores r')
  /\ gameWinner r' = Some Guest.
Proof.
  intros Hgd Hr He. unfold guessPatch, apply_patch; cbv zeta. rewrite Hgd.
  assert (E : (currentRound r >=? 5) = true) by (apply Z.geb_le; lia).
  rewrite E. destruct role; simpl in *;
    (split; [reflexivity |]); (split; [lia |]);
    rewrite He, Z.gtb_ltb, Z.ltb_irrefl; reflexivity.
Qed.

(** C1: in round 5 with the host on 1 point and the guest on 2, the host
    guesses the creature.  The game finishes 2-2, the host has won the
    round, and [gameWinner] is the guest rather than null. *)
Theorem submitGuess_level_final_round_names_guest :
  let s := in_room "player_h" "AB23CD" Host (playing_room 5 1 2) in
  let out := submitGuess "Pikachu" s (quiet {[ "AB23CD" := playing_room 5 1 2 ]}) in
  out.1 = Ok true
  /\ exists r',
       rooms out.2 !! "AB23CD" = Some r'
       /\ status r' = Finished
       /\ scores r' = {| host := 2; guest := 2 |}
       /\ roundWinner r' = Some (WonBy Host)
       /\ gameWinner r' = Some Guest.
Proof.
  split; [vm_compute; reflexivity |].
  eexists. split; [vm_compute; reflexivity |].
  repeat split; reflexivity.
Qed.

(** The sibling branch, where both players are wrong in round 5 at 2-2,
    leaves [gameWinner] null. *)
Example submitGuess_level_final_round_both_wrong :
  let r := apply_field (playing_room 5 2 2)
             (SetGuestGuess (Some {| guess := "raichu"; correct := false;
                                     timestamp := 990%N |})) in
  let s := in_room "player_h" "AB23CD" Host r in
  let out := submitGuess "Eevee" s (quiet {[ "AB23CD" := r ]}) in
  out.1 = Ok false
  /\ (status <$> rooms out.2 !! "AB23CD") = Some Finished
  /\ (roundWinner <$> rooms out.2 !! "AB23CD") = Some (Some NoWinner)
  /\ (gameWinner <$> rooms out.2 !! "AB23CD") = Some None.
Proof. repeat split; vm_compute; reflexivity. Qed.

(** ** Two clients and one store *)

Lemma refresh_synced w s : synced w (refresh w s).
Proof.
  unfold synced, refresh. intros key.
  destruct (roomCode s) as [[| a k] |] eqn:Hc; simpl.
  - rewrite Hc. intros [= <-] Hne. contradiction.
  - destruct (rooms w !! String a k) as [r |] eqn:Hr; simpl.
    + rewrite Hc. intros [= <-] _. eauto.
    + discriminate.
  - rewrite Hc. discriminate.
Qed.

(** *** Updates that do not touch the scores *)











(** *** Guesses *)



Lemma guessPatch_won role r gd :
  correct gd = true ->
  resolved (apply_patch (guessPatch role r gd) r)
  /\ roundWinner (apply_patch (guessPatch role r gd) r) = Some (WonBy role).
Proof.
  intros H. unfold resolved, guessPatch, apply_patch. rewrite H.
  destruct role; simpl; destruct (_ || _); simpl; auto.
Qed.

Lemma guessPatch_drawn role r gd og :
  correct gd = false -> guess_of (other role) r = Some og -> correct og = false ->
  resolved (apply_patch (guessPatch role r gd) r)
  /\ roundWinner (apply_patch (guessPatch role r gd) r) = Some NoWinner.
Proof.
  intros H Hog Hc. unfold resolved, guessPatch, apply_patch; cbv zeta.
  rewrite H, Hog, Hc.
  destruct role; simpl; destruct (_ >=? _); simpl; auto.
Qed.



(** *** Operations that write a score line of their own *)





(** *** One action, then many *)






(** *** A match of three rounds *)

Example three_rounds_scores :
  (scores <$> rooms (world (run three_rounds table)) !! "AB23CD")
  = Some {| host := 1; guest := 1 |}
  /\ (currentRound <$> rooms (world (run three_rounds table)) !! "AB23CD") = Some 3
  /\ (status <$> rooms (world (run three_rounds table)) !! "AB23CD") = Some RoundEnd
  /\ rounds_won "AB23CD" three_rounds table = 2.
Proof. repeat split; vm_compute; reflexivity. Qed.


Example new_room_beside_the_match :
  (hostId <$> rooms (world (run three_rounds_and_a_new_room table)) !! "AAAAAA")
  = Some "player_g"
  /\ (scores <$> rooms (world (run three_rounds_and_a_new_room table)) !! "AB23CD")
     = Some {| host := 1; guest := 1 |}.
Proof. split; vm_compute; reflexivity. Qed.


(** *** A newcomer among eleven running matches *)

Lemma newcomers_store_ok : store_ok "LLLLLL" (world newcomers).
Proof.
  split; [reflexivity |]. intros r H. vm_compute in H. injection H as <-.
  split; [discriminate | intros _; split; reflexivity].
Qed.

(** C6: [createRoom] lowers the total of a running match.  Eleven matches
    are in their second round at 1-0 and every round trip succeeds; a
    newcomer's [createRoom] meets ten taken codes and then writes under
    the eleventh, LLLLLL.  The total of the match stored there falls from
    1 to 0 although no round was decided and nobody asked to play again,
    so it is no longer the number of rounds won. *)
Theorem createRoom_lowers_score_total :
  let op := (First, ACreateRoom) in
  store_ok "LLLLLL" (world newcomers)
  /\ score_total "LLLLLL" (world newcomers) = Some 1
  /\ score_total "LLLLLL" (world (step op newcomers)) = Some 0
  /\ rounds_won "LLLLLL" [op] newcomers = 0
  /\ (status <$> rooms (world newcomers) !! "LLLLLL") = Some Playing
  /\ (hostId <$> rooms (world (step op newcomers)) !! "LLLLLL") = Some "player_b"
  /\ error (first (step op newcomers)) = None.
Proof.
  split; [exact newcomers_store_ok |].
  repeat split; vm_compute; reflexivity.
Qed.

(** ** Round progression by the host *)

(** X1: a successful [startGame] of the host replaces the room by
    [started]: countdown of round 1 with a new creature and no guesses or
    round winner.  The scores, [gameWinner], both player ids and
    [totalRounds] are kept as they were. *)
Theorem startGame_keeps_scores s w code r p rest :
  roomCode s = Some code -> code <> "" -> playerRole s = Some Host ->
  rooms w !! code = Some r ->
  round_trips_ok 1 w = true ->
  pokeapi w = Some p :: rest ->
  exists w',
    startGame s w = (Ok s, w')
    /\ rooms w' = <[code := started p (clock w) r]> (rooms w)
    /\ scores (started p (clock w) r) = scores r
    /\ gameWinner (started p (clock w) r) = gameWinner r.
Proof.
  intros Hc Hne Hr Hroom Hok Hp. unfold startGame. rewrite Hc, Hr.
  destruct code as [| a code]; [contradiction |].
  unfold fetchRandomPokemon, fetch_pokemon, Math_random. store_steps.
  rewrite Hp. unfold round_trips_ok in Hok.
  destruct (random w); destruct (faults w) as [| [|] fs]; simpl in *;
    try discriminate; rewrite Hroom;
    (eexists; split; [reflexivity |]; simpl; auto).
Qed.

Lemma startGame_keeps_scores_witness :
  exists w',
    startGame (in_room "player_h" "AB23CD" Host abandoned_match) start_world
    = (Ok (in_room "player_h" "AB23CD" Host abandoned_match), w')
    /\ rooms w' = <["AB23CD" := started eevee (clock start_world) abandoned_match]>
                    (rooms start_world)
    /\ scores (started eevee (clock start_world) abandoned_match)
       = scores abandoned_match
    /\ gameWinner (started eevee (clock start_world) abandoned_match)
       = gameWinner abandoned_match.
Proof.
  apply (startGame_keeps_scores (in_room "player_h" "AB23CD" Host abandoned_match)
           start_world "AB23CD" abandoned_match eevee []);
    solve [reflexivity | discriminate | vm_compute; reflexivity].
Defined.

(** One successful [nextRound], with what it leaves of the world. *)
Lemma nextRound_advances s w code local r p rest :
  roomCode s = Some code -> code <> "" -> playerRole s = Some Host ->
  room s = Some local ->
  rooms w !! code = Some r ->
  round_trips_ok 1 w = true ->
  pokeapi w = Some p :: rest ->
  exists w',
    nextRound s w = (Ok tt, w')
    /\ rooms w' = <[code := advanced (currentRound local) p (clock w) r]> (rooms w)
    /\ clock w' = clock w /\ faults w' = tail (faults w) /\ pokeapi w' = rest.
Proof.
  intros Hc Hne Hr Hl Hroom Hok Hp. unfold nextRound. rewrite Hc, Hr, Hl.
  destruct code as [| a code]; [contradiction |].
  unfold fetchRandomPokemon, fetch_pokemon, Math_random. store_steps.
  rewrite Hp. unfold round_trips_ok in Hok.
  destruct (random w); destruct (faults w) as [| [|] fs]; simpl in *;
    try discriminate; rewrite Hroom;
    (eexists; split; [reflexivity |]; simpl; auto).
Qed.

(** X2: [nextRound] counts from the round of the host's snapshot.  A
    successful call stores round [n + 1] for a snapshot of round [n], and a
    second call from the same snapshot stores [n + 1] again, with the
    creature of the second fetch; the scores are kept by both. *)
Theorem nextRound_counts_from_snapshot s w code local r p1 p2 rest :
  roomCode s = Some code -> code <> "" -> playerRole s = Some Host ->
  room s = Some local ->
  rooms w !! code = Some r ->
  round_trips_ok 2 w = true ->
  pokeapi w = Some p1 :: Some p2 :: rest ->
  exists w1 w2,
    nextRound s w = (Ok tt, w1)
    /\ rooms w1 = <[code := advanced (currentRound local) p1 (clock w) r]> (rooms w)
    /\ nextRound s w1 = (Ok tt, w2)
    /\ rooms w2 = <[code := advanced (currentRound local) p2 (clock w) r]> (rooms w).
Proof.
  intros Hc Hne Hr Hl Hroom Hok Hp.
  assert (Hok1 : round_trips_ok 1 w = true).
  { unfold round_trips_ok in *. destruct (faults w) as [| [|] fs]; auto. }
  destruct (nextRound_advances s w code local r p1 (Some p2 :: rest))
    as (w1 & E1 & Hr1 & Hck & Hf & Hp1); auto.
  assert (Hok2 : round_trips_ok 1 w1 = true).
  { unfold round_trips_ok in *. rewrite Hf.
    destruct (faults w) as [| [|] [| [|] fs]]; simpl in *; auto. }
  destruct (nextRound_advances s w1 code local
              (advanced (currentRound local) p1 (clock w) r) p2 rest)
    as (w2 & E2 & Hr2 & _); auto.
  { rewrite Hr1. apply lookup_insert_eq. }
  exists w1, w2. split; [exact E1 |]. split; [exact Hr1 |].
  split; [exact E2 |]. rewrite Hr2, Hr1, Hck, insert_insert_eq. reflexivity.
Qed.

Lemma nextRound_counts_from_snapshot_witness :
  exists w1 w2,
    nextRound (in_room "player_h" "AB23CD" Host round_over) next_world = (Ok tt, w1)
    /\ rooms w1 = <["AB23CD" := advanced (currentRound round_over) eevee
                                  (clock next_world) round_over]> (rooms next_world)
    /\ nextRound (in_room "player_h" "AB23CD" Host round_over) w1 = (Ok tt, w2)
    /\ rooms w2 = <["AB23CD" := advanced (currentRound round_over) pikachu
                                  (clock next_world) round_over]> (rooms next_world).
Proof.
  apply (nextRound_counts_from_snapshot (in_room "player_h" "AB23CD" Host round_over)
           next_world "AB23CD" round_over round_over eevee pikachu []);
    solve [reflexivity | discriminate | vm_compute; reflexivity].
Defined.

(** X3: round progression is the host's.  For a client that is not the
    host, [startGame], [nextRound], [playAgain] and the countdown write
    return at once: no creature is fetched and the world is unchanged. *)
Theorem progression_host_only s w :
  playerRole s <> Some Host ->
  startGame s w = (Ok s, w)
  /\ nextRound s w = (Ok tt, w)
  /\ playAgain s w = (Ok tt, w)
  /\ forall now, updateCountdown now s w = (Ok tt, w).
Proof.
  intros H. unfold startGame, nextRound, playAgain, updateCountdown.
  destruct (playerRole s) as [[|] |]; [contradiction | |];
    (repeat split; [destruct (roomCode s) as [[| ? ?] |]; reflexivity ..
                   | intros now]);
    destruct (battleState s); try reflexivity;
    destruct (room s) as [r |]; try reflexivity;
    destruct (countdownStartAt r); try reflexivity;
    destruct (_ <=? 0); reflexivity.
Qed.

Lemma progression_host_only_witness :
  startGame (in_room "player_g" "AB23CD" Guest round_over) next_world
  = (Ok (in_room "player_g" "AB23CD" Guest round_over), next_world)
  /\ nextRound (in_room "player_g" "AB23CD" Guest round_over) next_world
     = (Ok tt, next_world)
  /\ playAgain (in_room "player_g" "AB23CD" Guest round_over) next_world
     = (Ok tt, next_world)
  /\ forall now,
       updateCountdown now (in_room "player_g" "AB23CD" Guest round_over) next_world
       = (Ok tt, next_world).
Proof.
  apply (progression_host_only (in_room "player_g" "AB23CD" Guest round_over)
           next_world).
  discriminate.
Defined.

(** X4: when the creature service does not answer, or the store cannot be
    reached, [startGame], [nextRound] and [playAgain] write nothing.
    [startGame] by the host of a room then reports its error; the session
    has no way to learn of a failed [nextRound] or [playAgain]. *)
Theorem progression_failure_writes_nothing s w :
  fetch_fails w \/ (exists fs, faults w = true :: fs) ->
  (exists s' w',
     startGame s w = (Ok s', w') /\ rooms w' = rooms w
     /\ (forall code, roomCode s = Some code -> code <> "" ->
         playerRole s = Some Host -> error s' = Some msg_start_failed))
  /\ (exists w', nextRound s w = (Ok tt, w') /\ rooms w' = rooms w)
  /\ (exists w', playAgain s w = (Ok tt, w') /\ rooms w' = rooms w).
Proof.
  intros H. unfold startGame, nextRound, playAgain, fetch_fails in *.
  unfold fetchRandomPokemon, fetch_pokemon, Math_random. store_steps.
  destruct (roomCode s) as [[| a code] |];
    destruct (playerRole s) as [[|] |]; destruct (room s) as [local |];
    (split; [| split]);
    try (eexists _, _; split; [reflexivity |]; split; [reflexivity |];
         intros; congruence);
    try (eexists; split; reflexivity);
    destruct H as [H | [fs H]];
    destruct (random w); destruct (pokeapi w) as [| [p |] ps];
    try contradiction; simpl; rewrite ?H; simpl;
    try (eexists _, _; split; [reflexivity |]; split; [reflexivity |];
         intros; reflexivity);
    try (eexists; split; reflexivity);
    destruct (faults w) as [| [|] fs']; simpl;
    try (eexists _, _; split; [reflexivity |]; split; [reflexivity |];
         intros; reflexivity);
    try (eexists; split; reflexivity).
Qed.

Lemma progression_failure_writes_nothing_witness :
  (exists s' w',
     startGame (in_room "player_h" "AB23CD" Host round_over) silent_world
     = (Ok s', w') /\ rooms w' = rooms silent_world
     /\ (forall code,
           roomCode (in_room "player_h" "AB23CD" Host round_over) = Some code ->
           code <> "" ->
           playerRole (in_room "player_h" "AB23CD" Host round_over) = Some Host ->
           error s' = Some msg_start_failed))
  /\ (exists w',
        nextRound (in_room "player_h" "AB23CD" Host round_over) silent_world
        = (Ok tt, w') /\ rooms w' = rooms silent_world)
  /\ (exists w',
        playAgain (in_room "player_h" "AB23CD" Host round_over) silent_world
        = (Ok tt, w') /\ rooms w' = rooms silent_world).
Proof.
  apply (progression_failure_writes_nothing
           (in_room "player_h" "AB23CD" Host round_over) silent_world).
  left. exact I.
Defined.

(** ** The countdown *)

(** X5: the countdown write waits for three seconds.  Earlier than 3000 ms
    after [countdownStartAt] nothing is written by anybody; from then on
    the host who sees [countdown] sets the status to [playing] and changes
    no other field. *)
Theorem updateCountdown_after_three_seconds now s w local start :
  room s = Some local -> countdownStartAt local = Some start ->
  (now < Z.of_N start + 3000 -> updateCountdown now s w = (Ok tt, w))
  /\ (forall code r,
        Z.of_N start + 3000 <= now ->
        battleState s = BCountdown -> playerRole s = Some Host ->
        roomCode s = Some code -> code <> "" ->
        rooms w !! code = Some r -> round_trips_ok 1 w = true ->
        exists w',
          updateCountdown now s w = (Ok tt, w')
          /\ rooms w' = <[code := in_playing r]> (rooms w)).
Proof.
  intros Hl Hs. unfold updateCountdown. rewrite Hl, Hs. split.
  - intros Hnow.
    assert (E : (3 - (now - Z.of_N start) / 1000 <=? 0) = false).
    { apply Z.leb_gt.
      assert ((now - Z.of_N start) / 1000 < 3); [| lia].
      apply Z.div_lt_upper_bound; lia. }
    rewrite E. destruct (battleState s); reflexivity.
  - intros code r Hnow Hb Hr Hc Hne Hroom Hok.
    assert (E : (3 - (now - Z.of_N start) / 1000 <=? 0) = true).
    { apply Z.leb_le.
      assert (3 <= (now - Z.of_N start) / 1000); [| lia].
      apply Z.div_le_lower_bound; lia. }
    rewrite Hb, E, Hr, Hc. destruct code as [| a code]; [contradiction |].
    store_steps. unfold round_trips_ok in Hok.
    destruct (faults w) as [| [|] fs]; simpl in *; try discriminate;
      rewrite Hroom; eexists; split; reflexivity.
Qed.

Lemma updateCountdown_after_three_seconds_witness :
  exists w',
    updateCountdown 4000 (in_room "player_h" "AB23CD" Host counting)
      (quiet {[ "AB23CD" := counting ]}) = (Ok tt, w')
    /\ rooms w' = <["AB23CD" := in_playing counting]>
                    (rooms (quiet {[ "AB23CD" := counting ]})).
Proof.
  apply (proj2 (updateCountdown_after_three_seconds 4000
                  (in_room "player_h" "AB23CD" Host counting)
                  (quiet {[ "AB23CD" := counting ]}) counting 1000%N
                  eq_refl eq_refl) "AB23CD" counting);
    solve [reflexivity | discriminate | vm_compute; congruence].
Defined.

Example updateCountdown_too_early :
  updateCountdown 3999 (in_room "player_h" "AB23CD" Host counting)
    (quiet {[ "AB23CD" := counting ]})
  = (Ok tt, quiet {[ "AB23CD" := counting ]}).
Proof. reflexivity. Qed.

(** ** Guesses *)

(** X6: [hasGuessed] is the guard of [submitGuess] seen from the screen.
    A client with a role for which [hasGuessed] holds cannot write a
    guess; and once an eligible guess has reached the store and its
    snapshot has come back, [hasGuessed] holds, whatever the guess was. *)
Theorem hasGuessed_blocks_guess text s w :
  (forall role, playerRole s = Some role -> hasGuessed s = true ->
     submitGuess text s w = (Ok false, w))
  /\ (forall code role r pokemon b w',
        eligible s code role r pokemon ->
        rooms w !! code = Some r -> round_trips_ok 1 w = true ->
        submitGuess text s w = (Ok b, w') ->
        hasGuessed s = false
        /\ hasGuessed (onSnapshot (rooms w' !! code) s) = true).
Proof.
  split.
  - intros role Hr Hg. unfold hasGuessed in Hg.
    destruct (room s) as [r |] eqn:Hroom; [| discriminate].
    eapply submitGuess_ineligible; [exact Hroom |].
    right. right. exists role. split; [exact Hr |]. rewrite Hr in Hg.
    destruct role; simpl;
      [destruct (hostGuess r) | destruct (guestGuess r)]; eauto; discriminate.
  - intros code role r pokemon b w' Hel Hstore Hok Hrun.
    rewrite (submitGuess_eligible text s w code role r pokemon Hel) in Hrun.
    destruct Hel as (Hc & Hne & Hroom & Hrole & Hst & Hp & Hg).
    inversion Hrun as [[Hb Hw]]. clear Hrun. split.
    + unfold hasGuessed. rewrite Hroom, Hrole.
      destruct role; simpl in Hg; rewrite Hg; reflexivity.
    + assert (Hlook : rooms (write_guess code role r (guessData_of text pokemon (clock w)) w) !! code
                      = Some (apply_patch (guessPatch role r (guessData_of text pokemon (clock w))) r)).
      { unfold write_guess, round_trips_ok in *.
        destruct (faults w) as [| [|] fs]; simpl in *; try discriminate;
          rewrite Hstore; simpl; apply lookup_insert_eq. }
      rewrite Hlook. unfold hasGuessed. simpl. rewrite Hrole.
      pose proof (guessPatch_records role r (guessData_of text pokemon (clock w)) r) as Hrec.
      destruct role; simpl in Hrec; rewrite Hrec; reflexivity.
Qed.

Lemma hasGuessed_blocks_guess_witness :
  hasGuessed (in_room "player_g" "AB23CD" Guest (playing_room 1 0 0)) = false
  /\ hasGuessed
       (onSnapshot
          (rooms (submitGuess "raichu"
                    (in_room "player_g" "AB23CD" Guest (playing_room 1 0 0))
                    (quiet {[ "AB23CD" := playing_room 1 0 0 ]})).2 !! "AB23CD")
          (in_room "player_g" "AB23CD" Guest (playing_room 1 0 0))) = true.
Proof.
  apply (proj2 (hasGuessed_blocks_guess "raichu"
                  (in_room "player_g" "AB23CD" Guest (playing_room 1 0 0))
                  (quiet {[ "AB23CD" := playing_room 1 0 0 ]}))
           "AB23CD" Guest (playing_room 1 0 0) pikachu false).
  - repeat split; solve [reflexivity | discriminate].
  - vm_compute. reflexivity.
  - reflexivity.
  - vm_compute. reflexivity.
Defined.

(** X7: a guess touches only what is the guesser's to touch.  The update
    of an eligible guess keeps the other player's guess and score, both
    ids, the round counter, the creature and the timestamps, never lowers
    the guesser's score, and records the guess as sent. *)
Theorem submitGuess_frame text s w code role r pokemon :
  eligible s code role r pokemon ->
  rooms w !! code = Some r -> round_trips_ok 1 w = true ->
  exists b w' r',
    submitGuess text s w = (Ok b, w')
    /\ rooms w' = <[code := r']> (rooms w)
    /\ guess_of role r' = Some (guessData_of text pokemon (clock w))
    /\ guess_of (other role) r' = guess_of (other role) r
    /\ score_of (other role) (scores r') = score_of (other role) (scores r)
    /\ score_of role (scores r) <= score_of role (scores r')
    /\ hostId r' = hostId r /\ guestId r' = guestId r
    /\ currentRound r' = currentRound r /\ totalRounds r' = totalRounds r
    /\ currentPokemon r' = currentPokemon r
    /\ countdownStartAt r' = countdownStartAt r /\ createdAt r' = createdAt r.
Proof.
  intros Hel Hstore Hok.
  rewrite (submitGuess_eligible text s w code role r pokemon Hel).
  set (gd := guessData_of text pokemon (clock w)).
  eexists _, _, (apply_patch (guessPatch role r gd) r).
  split; [reflexivity |]. split.
  { unfold write_guess, round_trips_ok in *.
    destruct (faults w) as [| [|] fs]; simpl in *; try discriminate;
      rewrite Hstore; reflexivity. }
  split; [apply guessPatch_records |].
  unfold guessPatch, apply_patch. clearbody gd.
  destruct role; simpl;
    (destruct (correct gd);
     [| match goal with
        | |- context [match ?o with Some _ => _ | None => _ end] =>
            destruct o as [[? [|] ?] |] eqn:Ho
        end]);
    simpl;
    repeat match goal with
           | |- context [if ?b then _ else _] => destruct b; simpl
           end;
    repeat split; try reflexivity; try exact Ho; lia.
Qed.

Lemma submitGuess_frame_witness :
  exists b w' r',
    submitGuess "Pikachu" (in_room "player_g" "AB23CD" Guest (playing_room 2 1 0))
      (quiet {[ "AB23CD" := playing_room 2 1 0 ]}) = (Ok b, w')
    /\ rooms w' = <["AB23CD" := r']> (rooms (quiet {[ "AB23CD" := playing_room 2 1 0 ]}))
    /\ guess_of Guest r'
       = Some (guessData_of "Pikachu" pikachu
                 (clock (quiet {[ "AB23CD" := playing_room 2 1 0 ]})))
    /\ guess_of (other Guest) r' = guess_of (other Guest) (playing_room 2 1 0)
    /\ score_of (other Guest) (scores r')
       = score_of (other Guest) (scores (playing_room 2 1 0))
    /\ score_of Guest (scores (playing_room 2 1 0)) <= score_of Guest (scores r')
    /\ hostId r' = hostId (playing_room 2 1 0)
    /\ guestId r' = guestId (playing_room 2 1 0)
    /\ currentRound r' = currentRound (playing_room 2 1 0)
    /\ totalRounds r' = totalRounds (playing_room 2 1 0)
    /\ currentPokemon r' = currentPokemon (playing_room 2 1 0)
    /\ countdownStartAt r' = countdownStartAt (playing_room 2 1 0)
    /\ createdAt r' = createdAt (playing_room 2 1 0).
Proof.
  apply (submitGuess_frame "Pikachu"
           (in_room "player_g" "AB23CD" Guest (playing_room 2 1 0))
           (quiet {[ "AB23CD" := playing_room 2 1 0 ]})
           "AB23CD" Guest (playing_room 2 1 0) pikachu).
  - repeat split; solve [reflexivity | discriminate].
  - vm_compute. reflexivity.
  - reflexivity.
Defined.

(** X8: a wrong guess does not end the round by itself.  When the other
    player has not guessed, or is recorded as correct, the update of a
    wrong guess records the guess and nothing else: status, scores and
    winners stay as they are. *)
Theorem wrong_guess_leaves_round_open text s w code role r pokemon :
  eligible s code role r pokemon ->
  rooms w !! code = Some r -> round_trips_ok 1 w = true ->
  normalizeGuess text <> normalizeGuess (name pokemon) ->
  guess_of (other role) r = None \/ was_correct (guess_of (other role) r) = true ->
  exists w',
    submitGuess text s w = (Ok false, w')
    /\ rooms w'
       = <[code := with_guess role (guessData_of text pokemon (clock w)) r]> (rooms w)
    /\ status (with_guess role (guessData_of text pokemon (clock w)) r) = Playing.
Proof.
  intros Hel Hstore Hok Hneq Hother.
  rewrite (submitGuess_eligible text s w code role r pokemon Hel).
  assert (Hc : correct (guessData_of text pokemon (clock w)) = false).
  { unfold guessData_of. simpl.
    rewrite <- (normalizeGuess_normalizeAnswer (name pokemon)).
    by apply String.eqb_neq. }
  rewrite Hc. eexists. split; [reflexivity |].
  destruct Hel as (_ & _ & _ & _ & Hst & _ & _).
  split.
  - unfold write_guess, round_trips_ok in *.
    assert (Hp : guessPatch role r (guessData_of text pokemon (clock w))
                 = [guessField role (Some (guessData_of text pokemon (clock w)))]).
    { unfold guessPatch. rewrite Hc.
      destruct Hother as [H | H]; [rewrite H; reflexivity |].
      destruct (guess_of (other role) r) as [og |]; [| discriminate].
      simpl in H. rewrite H. reflexivity. }
    rewrite Hp.
    destruct (faults w) as [| [|] fs]; simpl in *; try discriminate;
      rewrite Hstore; reflexivity.
  - destruct role; exact Hst.
Qed.

Lemma wrong_guess_leaves_round_open_witness :
  exists w',
    submitGuess "raichu" (in_room "player_h" "AB23CD" Host (playing_room 2 1 0))
      (quiet {[ "AB23CD" := playing_room 2 1 0 ]}) = (Ok false, w')
    /\ rooms w'
       = <["AB23CD" :=
             with_guess Host
               (guessData_of "raichu" pikachu
                  (clock (quiet {[ "AB23CD" := playing_room 2 1 0 ]})))
               (playing_room 2 1 0)]>
           (rooms (quiet {[ "AB23CD" := playing_room 2 1 0 ]}))
    /\ status
         (with_guess Host
            (guessData_of "raichu" pikachu
               (clock (quiet {[ "AB23CD" := playing_room 2 1 0 ]})))
            (playing_room 2 1 0)) = Playing.
Proof.
  apply (wrong_guess_leaves_round_open "raichu"
           (in_room "player_h" "AB23CD" Host (playing_room 2 1 0))
           (quiet {[ "AB23CD" := playing_room 2 1 0 ]})
           "AB23CD" Host (playing_room 2 1 0) pikachu).
  - repeat split; solve [reflexivity | discriminate].
  - vm_compute. reflexivity.
  - reflexivity.
  - vm_compute. discriminate.
  - left. reflexivity.
Defined.

(** The stored room after the update of a guess that reaches the store;
    the patch comes from the snapshot [r], the document from the store. *)
Lemma write_guess_stored code role r gd w stored :
  rooms w !! code = Some stored -> round_trips_ok 1 w = true ->
  rooms (write_guess code role r gd w) !! code
  = Some (apply_patch (guessPatch role r gd) stored)
  /\ faults (write_guess code role r gd w) = tail (faults w).
Proof.
  intros Hstore Hok.
  unfold write_guess, round_trips_ok, with_rooms, after_round_trip in *.
  destruct (faults w) as [| [|] fs]; simpl in *; try discriminate;
    rewrite Hstore; simpl; rewrite lookup_insert_eq; split; reflexivity.
Qed.

(** X9: two correct guesses sent from the same snapshot, in either
    order.  When the two players both hold the snapshot [r] of an open
    round and both guess the creature before either sees the other's
    write, the second write replaces the scores computed by the first:
    both guesses are recorded as correct, but only the second guesser has
    the point and the round.  [role] is the player whose write reaches
    the store first. *)
Theorem simultaneous_correct_guesses role a b w code r pokemon t1 t2 :
  eligible a code role r pokemon -> eligible b code (other role) r pokemon ->
  rooms w !! code = Some r -> round_trips_ok 2 w = true ->
  normalizeGuess t1 = normalizeGuess (name pokemon) ->
  normalizeGuess t2 = normalizeGuess (name pokemon) ->
  exists w1 w2 r2,
    submitGuess t1 a w = (Ok true, w1)
    /\ submitGuess t2 b w1 = (Ok true, w2)
    /\ rooms w2 !! code = Some r2
    /\ was_correct (guess_of role r2) = true
    /\ was_correct (guess_of (other role) r2) = true
    /\ scores r2 = increment (other role) (scores r)
    /\ roundWinner r2 = Some (WonBy (other role)).
Proof.
  intros Ha Hb Hstore Hok E1 E2.
  assert (Hc : forall t now, normalizeGuess t = normalizeGuess (name pokemon) ->
             correct (guessData_of t pokemon now) = true).
  { intros t now E. unfold guessData_of. simpl.
    rewrite <- (normalizeGuess_normalizeAnswer (name pokemon)).
    by apply String.eqb_eq. }
  set (w1 := write_guess code role r (guessData_of t1 pokemon (clock w)) w).
  set (w2 := write_guess code (other role) r
               (guessData_of t2 pokemon (clock w1)) w1).
  assert (R1 : submitGuess t1 a w = (Ok true, w1)).
  { rewrite (submitGuess_eligible t1 a w code role r pokemon Ha).
    by rewrite Hc. }
  assert (R2 : submitGuess t2 b w1 = (Ok true, w2)).
  { rewrite (submitGuess_eligible t2 b w1 code (other role) r pokemon Hb).
    by rewrite Hc. }
  exists w1, w2.
  assert (Hw2 : exists r2, rooms w2 !! code = Some r2
            /\ r2 = apply_patch
                      (guessPatch (other role) r (guessData_of t2 pokemon (clock w1)))
                      (apply_patch
                         (guessPatch role r (guessData_of t1 pokemon (clock w))) r)).
  { destruct (write_guess_stored code role r (guessData_of t1 pokemon (clock w)) w r)
      as [L1 F1]; auto.
    { unfold round_trips_ok in *. destruct (faults w) as [| [|] ?]; auto. }
    fold w1 in L1, F1.
    destruct (write_guess_stored code (other role) r
                (guessData_of t2 pokemon (clock w1)) w1
                (apply_patch (guessPatch role r (guessData_of t1 pokemon (clock w))) r))
      as [L2 _]; auto.
    { unfold round_trips_ok in *. rewrite F1.
      destruct (faults w) as [| [|] [| [|] ?]]; simpl in *; auto. }
    fold w2 in L2. eauto. }
  destruct Hw2 as (r2 & Hr2 & ->).
  eexists. split; [exact R1 |]. split; [exact R2 |]. split; [exact Hr2 |].
  unfold guessPatch. rewrite !Hc by assumption.
  destruct role; unfold apply_patch; simpl;
    repeat match goal with
           | |- context [if ?b then _ else _] => destruct b; simpl
           end;
    (split; [first [exact (Hc t1 0%N E1) | exact (Hc t2 0%N E2)] |]);
    (split; [first [exact (Hc t2 0%N E2) | exact (Hc t1 0%N E1)] |]);
    split; reflexivity.
Qed.

(** The guest's write reaches the store first: the host has the point. *)
Lemma simultaneous_correct_guesses_witness :
  exists w1 w2 r2,
    submitGuess "Pikachu!" (in_room "player_g" "AB23CD" Guest (playing_room 2 1 0))
      (quiet {[ "AB23CD" := playing_room 2 1 0 ]}) = (Ok true, w1)
    /\ submitGuess "pikachu" (in_room "player_h" "AB23CD" Host (playing_room 2 1 0)) w1
       = (Ok true, w2)
    /\ rooms w2 !! "AB23CD" = Some r2
    /\ was_correct (guestGuess r2) = true
    /\ was_correct (hostGuess r2) = true
    /\ scores r2 = increment Host (scores (playing_room 2 1 0))
    /\ roundWinner r2 = Some (WonBy Host).
Proof.
  apply (simultaneous_correct_guesses Guest
           (in_room "player_g" "AB23CD" Guest (playing_room 2 1 0))
           (in_room "player_h" "AB23CD" Host (playing_room 2 1 0))
           (quiet {[ "AB23CD" := playing_room 2 1 0 ]})
           "AB23CD" (playing_room 2 1 0) pikachu "Pikachu!" "pikachu").
  - repeat split; solve [reflexivity | discriminate].
  - repeat split; solve [reflexivity | discriminate].
  - vm_compute. reflexivity.
  - reflexivity.
  - reflexivity.
  - reflexivity.
Defined.

(** Both orders on the same room: whoever writes second has the point. *)
Example simultaneous_guesses_both_orders :
  let h := in_room "player_h" "AB23CD" Host (playing_room 2 1 0) in
  let g := in_room "player_g" "AB23CD" Guest (playing_room 2 1 0) in
  let w := quiet {[ "AB23CD" := playing_room 2 1 0 ]} in
  (scores <$> rooms (submitGuess "pikachu" g (submitGuess "pikachu" h w).2).2
                !! "AB23CD") = Some {| host := 1; guest := 1 |}
  /\ (scores <$> rooms (submitGuess "pikachu" h (submitGuess "pikachu" g w).2).2
                   !! "AB23CD") = Some {| host := 2; guest := 0 |}.
Proof. split; vm_compute; reflexivity. Qed.

(** X10: first to three.  When a correct guess brings the guesser to
    three points or more and ahead of the other player, the game is
    finished in any round and the guesser is the game winner. *)
Theorem third_point_wins text s w code role r pokemon :
  eligible s code role r pokemon ->
  rooms w !! code = Some r -> round_trips_ok 1 w = true ->
  normalizeGuess text = normalizeGuess (name pokemon) ->
  3 <= score_of role (scores r) + 1 ->
  score_of (other role) (scores r) <= score_of role (scores r) ->
  exists w' r',
    submitGuess text s w = (Ok true, w')
    /\ rooms w' !! code = Some r'
    /\ status r' = Finished
    /\ gameWinner r' = Some role
    /\ score_of role (scores r') = score_of role (scores r) + 1.
Proof.
  intros Hel Hstore Hok E H3 Hlead.
  rewrite (submitGuess_eligible text s w code role r pokemon Hel).
  assert (Hc : correct (guessData_of text pokemon (clock w)) = true).
  { unfold guessData_of. simpl.
    rewrite <- (normalizeGuess_normalizeAnswer (name pokemon)).
    by apply String.eqb_eq. }
  destruct (write_guess_stored code role r (guessData_of text pokemon (clock w)) w r)
    as [L _]; auto.
  rewrite Hc. eexists _, _. split; [reflexivity |]. split; [exact L |].
  unfold guessPatch, apply_patch. rewrite Hc.
  destruct role; simpl in *.
  - assert (E3 : (host (scores r) + 1 >=? 3) = true) by (apply Z.geb_le; lia).
    rewrite E3, orb_true_r. simpl.
    assert (E4 : (host (scores r) + 1 >? guest (scores r)) = true)
      by (apply Z.gtb_lt; lia).
    rewrite E4. auto.
  - assert (E3 : (guest (scores r) + 1 >=? 3) = true) by (apply Z.geb_le; lia).
    rewrite E3, orb_true_r. simpl.
    assert (E4 : (host (scores r) >? guest (scores r) + 1) = false).
    { rewrite Z.gtb_ltb. apply Z.ltb_ge. lia. }
    rewrite E4. auto.
Qed.

Lemma third_point_wins_witness :
  exists w' r',
    submitGuess "pikachu" (in_room "player_h" "AB23CD" Host (playing_room 3 2 0))
      (quiet {[ "AB23CD" := playing_room 3 2 0 ]}) = (Ok true, w')
    /\ rooms w' !! "AB23CD" = Some r'
    /\ status r' = Finished
    /\ gameWinner r' = Some Host
    /\ score_of Host (scores r') = score_of Host (scores (playing_room 3 2 0)) + 1.
Proof.
  apply (third_point_wins "pikachu"
           (in_room "player_h" "AB23CD" Host (playing_room 3 2 0))
           (quiet {[ "AB23CD" := playing_room 3 2 0 ]})
           "AB23CD" Host (playing_room 3 2 0) pikachu).
  - repeat split; solve [reflexivity | discriminate].
  - vm_compute. reflexivity.
  - reflexivity.
  - reflexivity.
  - simpl. lia.
  - simpl. lia.
Defined.

(** X11: winners are named only when something is decided.  After the
    update of an eligible guess on a room that had neither winner set,
    [roundWinner] is set exactly when the round is over, and [gameWinner]
    is set only when the game is finished. *)
Theorem winners_follow_status text s w code role r pokemon :
  eligible s code role r pokemon ->
  rooms w !! code = Some r -> round_trips_ok 1 w = true ->
  roundWinner r = None -> gameWinner r = None ->
  exists b w' r',
    submitGuess text s w = (Ok b, w')
    /\ rooms w' !! code = Some r'
    /\ (is_Some (roundWinner r') <-> resolved r')
    /\ (status r' = Playing \/ resolved r')
    /\ (is_Some (gameWinner r') -> status r' = Finished).
Proof.
  intros Hel Hstore Hok Hrw Hgw.
  rewrite (submitGuess_eligible text s w code role r pokemon Hel).
  destruct (write_guess_stored code role r (guessData_of text pokemon (clock w)) w r)
    as [L _]; auto.
  eexists _, _, _. split; [reflexivity |]. split; [exact L |].
  destruct Hel as (_ & _ & _ & _ & Hst & _ & _).
  generalize (guessData_of text pokemon (clock w)) as gd. intros gd.
  unfold resolved, guessPatch, apply_patch.
  destruct role; simpl;
    (destruct (correct gd);
     [| match goal with
        | |- context [match ?o with Some _ => _ | None => _ end] =>
            destruct o as [[? [|] ?] |]
        end]);
    simpl;
    repeat match goal with
           | |- context [if ?b then _ else _] => destruct b; simpl
           end;
    rewrite ?Hrw, ?Hgw, ?Hst; unfold is_Some;
    repeat split; intros;
    repeat match goal with
           | H : exists _, _ |- _ => destruct H
           | H : _ \/ _ |- _ => destruct H
           end;
    try discriminate; eauto.
Qed.

Lemma winners_follow_status_witness :
  exists b w' r',
    submitGuess "raichu" (in_room "player_h" "AB23CD" Host (playing_room 2 1 0))
      (quiet {[ "AB23CD" := playing_room 2 1 0 ]}) = (Ok b, w')
    /\ rooms w' !! "AB23CD" = Some r'
    /\ (is_Some (roundWinner r') <-> resolved r')
    /\ (status r' = Playing \/ resolved r')
    /\ (is_Some (gameWinner r') -> status r' = Finished).
Proof.
  apply (winners_follow_status "raichu"
           (in_room "player_h" "AB23CD" Host (playing_room 2 1 0))
           (quiet {[ "AB23CD" := playing_room 2 1 0 ]})
           "AB23CD" Host (playing_room 2 1 0) pikachu).
  - repeat split; solve [reflexivity | discriminate].
  - vm_compute. reflexivity.
  - reflexivity.
  - reflexivity.
  - reflexivity.
Defined.

(** ** Rooms and membership *)

(** Every character of [chars] is its own upper case. *)
Lemma chars_upper_case : Forall (fun c => Js.upper_char c = c) (units chars).
Proof. repeat constructor. Qed.

Lemma toUpperCase_over_chars code :
  over (units chars) code -> Js.toUpperCase code = code.
Proof.
  unfold over. induction code as [| c code IH]; simpl; [reflexivity |].
  intros H. inversion H as [| ? ? Hc Hrest]; subst.
  unfold Js.toUpperCase in *. simpl. rewrite IH by exact Hrest.
  pose proof chars_upper_case as Hu. rewrite Forall_forall in Hu.
  rewrite (Hu c) by (by apply list_elem_of_In). reflexivity.
Qed.

(** X12: create, then join.  When [createRoom] has succeeded and the
    store stays reachable, the reported code is its own upper case, and a
    second client that joins with it, typed in any case, succeeds: the
    room is [ready] with the creator as host and the joiner as guest, and
    the two clients hold the roles host and guest. *)
Theorem createRoom_then_joinRoom s g w s1 w1 :
  draws_valid w ->
  createRoom s w = (Ok s1, w1) -> battleState s1 = BWaiting ->
  round_trips_ok 2 w1 = true ->
  exists code,
    roomCode s1 = Some code /\ playerRole s1 = Some Host
    /\ Js.toUpperCase code = code
    /\ forall typed,
         Js.toUpperCase typed = code ->
         exists g1 w2,
           joinRoom typed g w1 = (Ok (true, g1), w2)
           /\ rooms w2 !! code
              = Some (joined (playerId g) (freshRoom (playerId s) (clock w)))
           /\ playerRole g1 = Some Guest
           /\ roomCode g1 = Some code /\ battleState g1 = BReady.
Proof.
  intros Hw Hrun Hst Hok.
  destruct (createRoom_success s w s1 w1 Hw Hrun Hst)
    as (code & Hc & Hrole & Hwf & Hroom).
  exists code. split; [exact Hc |]. split; [exact Hrole |].
  split; [apply toUpperCase_over_chars, Hwf |].
  intros typed Htyped. unfold joinRoom. rewrite Htyped. store_steps.
  unfold round_trips_ok in Hok.
  destruct (faults w1) as [| [|] [| [|] fs]]; simpl in *; try discriminate;
    rewrite Hroom; simpl; rewrite ?Hroom;
    (eexists _, _; split; [reflexivity |]; simpl;
     rewrite lookup_insert_eq; auto 10).
Qed.

Lemma createRoom_then_joinRoom_witness :
  exists code,
    roomCode hosting_S9SA9S = Some code /\ playerRole hosting_S9SA9S = Some Host
    /\ Js.toUpperCase code = code
    /\ forall typed,
         Js.toUpperCase typed = code ->
         exists g1 w2,
           joinRoom typed (idle "player_g")
             (with_rooms (insert "S9SA9S" (freshRoom "player_a" 1000%N))
                (after_draws 6 six_draws_world)) = (Ok (true, g1), w2)
           /\ rooms w2 !! code
              = Some (joined (playerId (idle "player_g"))
                        (freshRoom (playerId (idle "player_a"))
                           (clock six_draws_world)))
           /\ playerRole g1 = Some Guest
           /\ roomCode g1 = Some code /\ battleState g1 = BReady.
Proof.
  apply (createRoom_then_joinRoom (idle "player_a") (idle "player_g")
           six_draws_world hosting_S9SA9S
           (with_rooms (insert "S9SA9S" (freshRoom "player_a" 1000%N))
              (after_draws 6 six_draws_world))).
  - unfold draws_valid, six_draws_world, half, late, Js.in_unit_interval. simpl.
    repeat constructor; simpl; lia.
  - vm_compute. reflexivity.
  - reflexivity.
  - reflexivity.
Defined.

(** X13: joining and leaving again restores the room.  When a guest joins
    a waiting room and then leaves, with the store reachable throughout,
    the store is exactly what it was before the join, and the guest is back
    in the idle configuration. *)
Theorem joinRoom_then_leaveRoom typed g w r :
  Js.toUpperCase typed <> "" ->
  rooms w !! Js.toUpperCase typed = Some r ->
  guestId r = None -> status r = Waiting ->
  round_trips_ok 3 w = true ->
  exists g1 w1 g2 w2,
    joinRoom typed g w = (Ok (true, g1), w1)
    /\ leaveRoom g1 w1 = (Ok g2, w2)
    /\ rooms w1 !! Js.toUpperCase typed = Some (joined (playerId g) r)
    /\ rooms w2 = rooms w
    /\ roomCode g2 = None /\ playerRole g2 = None /\ battleState g2 = BIdle.
Proof.
  intros Hne Hroom Hg Hst Hok.
  unfold joinRoom, leaveRoom. store_steps. unfold round_trips_ok in Hok.
  destruct (Js.toUpperCase typed) as [| a key] eqn:Hk; [contradiction |].
  destruct (faults w) as [| [|] [| [|] [| [|] fs]]]; simpl in *;
    try discriminate;
    rewrite Hroom; simpl; rewrite Hg, Hst; simpl; rewrite ?Hroom;
    (eexists _, _, _, _; split; [reflexivity |]; simpl;
     rewrite lookup_insert_eq; split; [reflexivity |]; simpl;
     split; [reflexivity |]; split; [| auto]);
    rewrite insert_insert_eq; unfold apply_patch; simpl;
    (replace r with {| hostId := hostId r; guestId := guestId r; status := status r;
                      currentRound := currentRound r; totalRounds := totalRounds r;
                      currentPokemon := currentPokemon r; scores := scores r;
                      roundWinner := roundWinner r; gameWinner := gameWinner r;
                      hostGuess := hostGuess r; guestGuess := guestGuess r;
                      countdownStartAt := countdownStartAt r;
                      createdAt := createdAt r |} in Hroom by (by destruct r));
    rewrite Hg, Hst in Hroom; by apply insert_id.
Qed.

Lemma joinRoom_then_leaveRoom_witness :
  exists g1 w1 g2 w2,
    joinRoom "ab23cd" (idle "player_g") (quiet lobby) = (Ok (true, g1), w1)
    /\ leaveRoom g1 w1 = (Ok g2, w2)
    /\ rooms w1 !! Js.toUpperCase "ab23cd"
       = Some (joined (playerId (idle "player_g")) (freshRoom "player_h" 900%N))
    /\ rooms w2 = rooms (quiet lobby)
    /\ roomCode g2 = None /\ playerRole g2 = None /\ battleState g2 = BIdle.
Proof.
  apply (joinRoom_then_leaveRoom "ab23cd" (idle "player_g") (quiet lobby)
           (freshRoom "player_h" 900%N));
    solve [reflexivity | discriminate | vm_compute; reflexivity].
Defined.

(** X14: a client that has left writes no more.  After [leaveRoom] of a
    client in a room, every further room action of that client
    ([startGame], [submitGuess], [nextRound], [playAgain], the countdown
    write, another [leaveRoom]) returns without touching the world. *)
Theorem leaveRoom_ends_participation s w code :
  roomCode s = Some code -> code <> "" ->
  exists s' w',
    leaveRoom s w = (Ok s', w')
    /\ startGame s' w' = (Ok s', w')
    /\ (forall text, submitGuess text s' w' = (Ok false, w'))
    /\ nextRound s' w' = (Ok tt, w')
    /\ playAgain s' w' = (Ok tt, w')
    /\ (forall now, updateCountdown now s' w' = (Ok tt, w'))
    /\ leaveRoom s' w' = (Ok s', w').
Proof.
  intros Hc Hne. unfold leaveRoom at 1. rewrite Hc.
  destruct code as [| a code]; [contradiction |].
  match goal with
  | |- context [try_catch ?m ?h] => destruct (try_catch m h w) as [[[] |] w'] eqn:E
  end.
  - exists (resetLocal s), w'. unfold bind. rewrite E.
    repeat split; reflexivity.
  - exfalso. revert E. store_steps.
    destruct (playerRole s) as [[|] |]; simpl;
      destruct (faults w) as [| [|] fs]; simpl;
      try destruct (rooms w !! String a code); discriminate.
Qed.

Lemma leaveRoom_ends_participation_witness :
  exists s' w',
    leaveRoom (in_room "player_g" "AB23CD" Guest full_room)
      (quiet {[ "AB23CD" := full_room ]}) = (Ok s', w')
    /\ startGame s' w' = (Ok s', w')
    /\ (forall text, submitGuess text s' w' = (Ok false, w'))
    /\ nextRound s' w' = (Ok tt, w')
    /\ playAgain s' w' = (Ok tt, w')
    /\ (forall now, updateCountdown now s' w' = (Ok tt, w'))
    /\ leaveRoom s' w' = (Ok s', w').
Proof.
  apply (leaveRoom_ends_participation
           (in_room "player_g" "AB23CD" Guest full_room)
           (quiet {[ "AB23CD" := full_room ]}) "AB23CD").
  - reflexivity.
  - discriminate.
Defined.

(** ** What the battle screen shows *)

(** X15: the headlines after a guess.  Once an eligible guess has reached
    the store and both clients hold the new snapshot: after a correct guess
    the guesser reads YOU WIN THIS ROUND and the other player Too Slow;
    after a wrong guess that follows the other player's wrong guess both
    read BOTH WRONG; and never do both clients read VICTORY. *)
Theorem headlines_after_guess text s w code role r pokemon me them :
  eligible s code role r pokemon ->
  rooms w !! code = Some r -> round_trips_ok 1 w = true ->
  playerRole me = Some role -> playerRole them = Some (other role) ->
  exists b w',
    submitGuess text s w = (Ok b, w')
    /\ let me' := onSnapshot (rooms w' !! code) me in
       let them' := onSnapshot (rooms w' !! code) them in
       (b = true ->
        BattleScreen.roundResultTitle me' = BattleScreen.YouWinTitle
        /\ BattleScreen.roundResultTitle them' = BattleScreen.TooSlowTitle)
       /\ (b = false -> is_Some (guess_of (other role) r) ->
           was_correct (guess_of (other role) r) = false ->
           BattleScreen.roundResultTitle me' = BattleScreen.BothWrongTitle
           /\ BattleScreen.roundResultTitle them' = BattleScreen.BothWrongTitle)
       /\ ~ (BattleScreen.gameOverTitle me' = BattleScreen.Victory
             /\ BattleScreen.gameOverTitle them' = BattleScreen.Victory).
Proof.
  intros Hel Hstore Hok Hme Hthem.
  rewrite (submitGuess_eligible text s w code role r pokemon Hel).
  destruct (write_guess_stored code role r (guessData_of text pokemon (clock w)) w r)
    as [L _]; auto.
  eexists _, _. split; [reflexivity |]. rewrite L.
  generalize (guessData_of text pokemon (clock w)) as gd. intros gd.
  unfold BattleScreen.roundResultTitle, BattleScreen.gameOverTitle,
    BattleScreen.bothWrong, BattleScreen.wonRound, BattleScreen.isWinner.
  simpl. rewrite Hme, Hthem. split; [| split].
  - intros Hb. destruct (guessPatch_won role r gd Hb) as [_ Hrw].
    rewrite Hrw. destruct role; simpl; auto.
  - intros Hb [og Hog] Hw. rewrite Hog in Hw. simpl in Hw.
    destruct (guessPatch_drawn role r gd og Hb Hog Hw) as [_ Hrw].
    rewrite Hrw. auto.
  - intros [H1 H2].
    destruct (gameWinner (apply_patch (guessPatch role r gd) r)) as [[|] |];
      destruct role; simpl in *;
      repeat (case_bool_decide; try discriminate; try congruence);
      discriminate H1 || discriminate H2.
Qed.

Lemma headlines_after_guess_witness :
  exists b w',
    submitGuess "pikachu" (in_room "player_g" "AB23CD" Guest (playing_room 1 0 0))
      (quiet {[ "AB23CD" := playing_room 1 0 0 ]}) = (Ok b, w')
    /\ let me' := onSnapshot (rooms w' !! "AB23CD")
                    (in_room "player_g" "AB23CD" Guest (playing_room 1 0 0)) in
       let them' := onSnapshot (rooms w' !! "AB23CD")
                      (in_room "player_h" "AB23CD" Host (playing_room 1 0 0)) in
       (b = true ->
        BattleScreen.roundResultTitle me' = BattleScreen.YouWinTitle
        /\ BattleScreen.roundResultTitle them' = BattleScreen.TooSlowTitle)
       /\ (b = false -> is_Some (guess_of (other Guest) (playing_room 1 0 0)) ->
           was_correct (guess_of (other Guest) (playing_room 1 0 0)) = false ->
           BattleScreen.roundResultTitle me' = BattleScreen.BothWrongTitle
           /\ BattleScreen.roundResultTitle them' = BattleScreen.BothWrongTitle)
       /\ ~ (BattleScreen.gameOverTitle me' = BattleScreen.Victory
             /\ BattleScreen.gameOverTitle them' = BattleScreen.Victory).
Proof.
  apply (headlines_after_guess "pikachu"
           (in_room "player_g" "AB23CD" Guest (playing_room 1 0 0))
           (quiet {[ "AB23CD" := playing_room 1 0 0 ]})
           "AB23CD" Guest (playing_room 1 0 0) pikachu).
  - repeat split; solve [reflexivity | discriminate].
  - vm_compute. reflexivity.
  - reflexivity.
  - reflexivity.
  - reflexivity.
Defined.

Lemma trimStart_blank text : blank text -> Js.trimStart text = "".
Proof.
  unfold blank. induction text as [| c text IH]; simpl; [reflexivity |].
  intros H. inversion H as [| ? ? Hc Hrest]; subst. rewrite Hc. auto.
Qed.

(** X16: what the guess button sends.  A text of white space only is not
    sent at all and stays in the field.  A text that is not blank but has
    no letter or digit is sent, and for a creature whose name has one it is
    recorded as a wrong guess with empty text: the player's guess of the
    round is spent. *)
Theorem handleGuess_blank_and_punctuation text s w :
  (blank text -> BattleScreen.handleGuess text s w = (Ok (text, None), w))
  /\ (forall code role r pokemon,
        Js.trim text <> "" -> normalizeGuess text = "" ->
        normalizeGuess (name pokemon) <> "" ->
        eligible s code role r pokemon ->
        rooms w !! code = Some r -> round_trips_ok 1 w = true ->
        exists w' r',
          BattleScreen.handleGuess text s w
          = (Ok ("", Some BattleScreen.Failure), w')
          /\ rooms w' !! code = Some r'
          /\ guess_of role r'
             = Some {| guess := ""; correct := false; timestamp := clock w |}).
Proof.
  unfold BattleScreen.handleGuess. split.
  - intros Hb. unfold Js.trim. rewrite (trimStart_blank text Hb). reflexivity.
  - intros code role r pokemon Ht Hn Hname Hel Hstore Hok.
    destruct (Js.trim text) as [| a t] eqn:E; [contradiction |].
    unfold bind.
    rewrite (submitGuess_eligible text s w code role r pokemon Hel).
    destruct (write_guess_stored code role r (guessData_of text pokemon (clock w)) w r)
      as [L _]; auto.
    assert (Hc : correct (guessData_of text pokemon (clock w)) = false).
    { unfold guessData_of. simpl. apply String.eqb_neq.
      rewrite <- (normalizeGuess_normalizeAnswer (name pokemon)). congruence. }
    rewrite Hc. eexists _, _. split; [reflexivity |]. split; [exact L |].
    rewrite guessPatch_records. unfold guessData_of. simpl.
    rewrite Hn. f_equal. f_equal.
    apply String.eqb_neq.
    rewrite <- (normalizeGuess_normalizeAnswer (name pokemon)). congruence.
Qed.

Lemma handleGuess_blank_and_punctuation_witness :
  exists w' r',
    BattleScreen.handleGuess "?!" (in_room "player_g" "AB23CD" Guest (playing_room 1 0 0))
      (quiet {[ "AB23CD" := playing_room 1 0 0 ]})
    = (Ok ("", Some BattleScreen.Failure), w')
    /\ rooms w' !! "AB23CD" = Some r'
    /\ guess_of Guest r'
       = Some {| guess := ""; correct := false;
                 timestamp := clock (quiet {[ "AB23CD" := playing_room 1 0 0 ]}) |}.
Proof.
  apply (proj2 (handleGuess_blank_and_punctuation "?!"
                  (in_room "player_g" "AB23CD" Guest (playing_room 1 0 0))
                  (quiet {[ "AB23CD" := playing_room 1 0 0 ]}))
           "AB23CD" Guest (playing_room 1 0 0) pikachu).
  - discriminate.
  - reflexivity.
  - discriminate.
  - repeat split; solve [reflexivity | discriminate].
  - vm_compute. reflexivity.
  - reflexivity.
Defined.

(** A no-break space is white space to [trim], so such a text is not
    sent either. *)
Example handleGuess_no_break_space :
  Js.trim no_break_space = ""
  /\ BattleScreen.handleGuess no_break_space
       (in_room "player_g" "AB23CD" Guest (playing_room 1 0 0))
       (quiet {[ "AB23CD" := playing_room 1 0 0 ]})
     = (Ok (no_break_space, None), quiet {[ "AB23CD" := playing_room 1 0 0 ]}).
Proof. split; reflexivity. Qed.

(** ** Guess history *)

(** X17: the counters of [stats] split the history: every record counts
    as correct or as wrong, never both. *)
Theorem stats_partition history :
  (GuessHistory.correct (GuessHistory.stats history)
   + GuessHistory.wrong (GuessHistory.stats history)
   = GuessHistory.total (GuessHistory.stats history))%nat.
Proof.
  unfold GuessHistory.stats. simpl.
  induction history as [| g history IH]; simpl; [reflexivity |].
  destruct (GuessHistory.wasCorrect g); simpl; lia.
Qed.

(** X18: [addGuess] keeps every guess, newest first.  After any sequence
    of calls the history lists the added names in reverse order of the
    calls in front of the older records, and the counters of [stats] have
    grown by the number of calls, of correct ones and of wrong ones. *)
Theorem addGuess_accumulates adds history :
  GuessHistory.pokemonName <$> replay adds history
  = (rev (GuessHistory.newName <$> (snd <$> adds))
     ++ (GuessHistory.pokemonName <$> history))%list
  /\ GuessHistory.total (GuessHistory.stats (replay adds history))
     = (List.length adds + GuessHistory.total (GuessHistory.stats history))%nat
  /\ GuessHistory.correct (GuessHistory.stats (replay adds history))
     = (hits adds + GuessHistory.correct (GuessHistory.stats history))%nat
  /\ GuessHistory.wrong (GuessHistory.stats (replay adds history))
     = (misses adds + GuessHistory.wrong (GuessHistory.stats history))%nat.
Proof.
  revert history. unfold replay, hits, misses, GuessHistory.stats. simpl.
  induction adds as [| a adds IH]; intros history; simpl; [auto |].
  destruct (IH (GuessHistory.addGuess a.1.1 a.1.2 a.2 history))
    as (H1 & H2 & H3 & H4).
  rewrite H1, H2, H3, H4. unfold GuessHistory.addGuess. simpl.
  split; [by rewrite <- app_assoc |].
  destruct (GuessHistory.newWasCorrect a.2); simpl; repeat split; lia.
Qed.

(** X19: the ids of the history are the decimal digits of the clock
    readings, so after [clearHistory] they are pairwise distinct exactly
    when no two guesses were added within the same millisecond. *)
Theorem history_ids_distinct adds history :
  NoDup (GuessHistory.id <$> replay adds (GuessHistory.clearHistory history))
  <-> NoDup ((fun a => a.1.1) <$> adds).
Proof.
  unfold GuessHistory.clearHistory.
  assert (H : GuessHistory.id <$> replay adds []
              = rev (pretty <$> ((fun a => a.1.1) <$> adds))).
  { assert (G : forall h,
               GuessHistory.id <$> replay adds h
               = (rev (pretty <$> ((fun a => a.1.1) <$> adds))
                  ++ (GuessHistory.id <$> h))%list).
    { unfold replay. induction adds as [| a adds IH]; intros h; simpl;
        [reflexivity |].
      rewrite IH. simpl. by rewrite <- app_assoc. }
    rewrite G. simpl. by rewrite app_nil_r. }
  rewrite H, <- Permutation_rev. apply NoDup_fmap. apply _.
Qed.

Example history_same_millisecond :
  GuessHistory.id <$> replay [(1700000000000%N, 1700000000000%N, caterpie);
                              (1700000000000%N, 1700000000001%N, mew)] []
  = ["1700000000000"; "1700000000000"]
  /\ GuessHistory.stats
       (replay [(1700000000000%N, 1700000000000%N, caterpie);
                (1700000000000%N, 1700000000001%N, mew)] [])
     = {| GuessHistory.correct := 1; GuessHistory.wrong := 1;
          GuessHistory.total := 2 |}.
Proof. split; vm_compute; reflexivity. Qed.

(** ** Normalization *)

Lemma strip_keeps s : Forall (fun c => Js.keeps c = true) (units (Js.strip_non_alnum s)).
Proof.
  induction s as [| c s IH]; simpl; [constructor |].
  destruct (Js.keeps c) eqn:Hc; [constructor; assumption | exact IH].
Qed.

Lemma keeps_not_upper c : Js.keeps c = true -> Js.is_upper c = false.
Proof.
  unfold Js.keeps, Js.is_lower, Js.is_digit, Js.is_upper, Js.between.
  intros H. apply orb_true_iff in H.
  apply andb_false_iff.
  destruct H as [H | H]; apply andb_true_iff in H as [H1 H2];
    apply N.leb_le in H1, H2; [right | left]; apply N.leb_gt; lia.
Qed.

Lemma strip_lower_fixed s :
  Forall (fun c => Js.keeps c = true) (units s) ->
  Js.strip_non_alnum (Js.toLowerCase s) = s.
Proof.
  unfold Js.toLowerCase. induction s as [| c s IH]; simpl; [reflexivity |].
  intros H. inversion H as [| ? ? Hc Hrest]; subst.
  assert (Hlc : Js.lower_char c = c).
  { unfold Js.lower_char. by rewrite (keeps_not_upper c Hc). }
  rewrite Hlc, Hc. f_equal. apply IH, Hrest.
Qed.

Lemma lower_upper_char c : Js.lower_char (Js.upper_char c) = Js.lower_char c.
Proof.
  unfold Js.lower_char, Js.upper_char.
  destruct (Js.is_lower c) eqn:Hl; [| reflexivity].
  unfold Js.is_lower, Js.is_upper, Js.between, Js.code_unit in *.
  apply andb_true_iff in Hl as [H1 H2]. apply N.leb_le in H1, H2.
  pose proof (N_ascii_bounded c) as Hb.
  rewrite N_ascii_embedding by lia.
  replace ((65 <=? N_of_ascii c - 32)%N) with true
    by (symmetry; apply N.leb_le; lia).
  replace ((N_of_ascii c - 32 <=? 90)%N) with true
    by (symmetry; apply N.leb_le; lia).
  replace ((N_of_ascii c <=? 90)%N) with false
    by (symmetry; apply N.leb_gt; lia).
  rewrite andb_false_r. simpl.
  replace (N_of_ascii c - 32 + 32)%N with (N_of_ascii c) by lia.
  apply ascii_N_embedding.
Qed.

Lemma toLowerCase_toUpperCase s :
  Js.toLowerCase (Js.toUpperCase s) = Js.toLowerCase s.
Proof.
  unfold Js.toLowerCase, Js.toUpperCase.
  induction s as [| c s IH]; simpl; [reflexivity |].
  rewrite lower_upper_char, IH. reflexivity.
Qed.

(** X20: [normalizeString] gives a canonical form.  Its result has only
    characters of [a-z0-9], normalizing twice is normalizing once, the case
    of the input does not matter, and it is the normalization that
    [submitGuess] applies to a guess. *)
Theorem normalizeString_canonical str :
  Forall (fun c => Js.keeps c = true) (units (HomeScreen.normalizeString str))
  /\ HomeScreen.normalizeString (HomeScreen.normalizeString str)
     = HomeScreen.normalizeString str
  /\ HomeScreen.normalizeString (Js.toUpperCase str)
     = HomeScreen.normalizeString str
  /\ HomeScreen.normalizeString str = normalizeGuess str.
Proof.
  unfold HomeScreen.normalizeString. split; [apply strip_keeps |].
  split; [| split; [| reflexivity]].
  - rewrite (strip_trim (Js.toLowerCase (Js.strip_non_alnum _))).
    apply strip_lower_fixed, strip_keeps.
  - by rewrite toLowerCase_toUpperCase.
Qed.

(** ** The single-player screen *)

(** X21: the single-player screen records each creature once.
    [handleGuess] does nothing without a creature, with a blank text, or
    once the creature is revealed.  Otherwise it adds exactly one record
    for the creature to the front of the history, marked correct exactly
    when the normalized texts agree, reveals the creature, and thereby
    makes every further call a no-op until the next creature is loaded. *)
Theorem handleGuess_records_once now date app :
  ((HomeScreen.pokemon (HomeScreen.screen app) = None
    \/ blank (HomeScreen.guess (HomeScreen.screen app))
    \/ HomeScreen.isRevealed (HomeScreen.screen app) = true) ->
   HomeScreen.handleGuess now date app = app)
  /\ (forall p,
        HomeScreen.pokemon (HomeScreen.screen app) = Some p ->
        Js.trim (HomeScreen.guess (HomeScreen.screen app)) <> "" ->
        HomeScreen.isRevealed (HomeScreen.screen app) = false ->
        let app' := HomeScreen.handleGuess now date app in
        (exists g,
           HomeScreen.history app' = g :: HomeScreen.history app
           /\ GuessHistory.pokemonName g = HomeScreen.name p
           /\ GuessHistory.pokemonId g = HomeScreen.id p
           /\ (GuessHistory.wasCorrect g = true
               <-> HomeScreen.normalizeString (HomeScreen.guess (HomeScreen.screen app))
                   = HomeScreen.normalizeString (HomeScreen.name p)))
        /\ HomeScreen.isRevealed (HomeScreen.screen app') = true
        /\ HomeScreen.pokemon (HomeScreen.screen app') = Some p
        /\ forall now' date', HomeScreen.handleGuess now' date' app' = app').
Proof.
  unfold HomeScreen.handleGuess. split.
  - intros [H | [H | H]].
    + rewrite H. reflexivity.
    + destruct (HomeScreen.pokemon (HomeScreen.screen app)); [| reflexivity].
      unfold Js.trim. rewrite (trimStart_blank _ H). reflexivity.
    + destruct (HomeScreen.pokemon (HomeScreen.screen app)); [| reflexivity].
      rewrite H. destruct (Js.trim _); reflexivity.
  - intros p Hp Ht Hr. rewrite Hp, Hr.
    destruct (Js.trim (HomeScreen.guess (HomeScreen.screen app))) as [| a t] eqn:E;
      [contradiction |].
    destruct (String.eqb _ _) eqn:Heq; simpl; rewrite ?Hp, ?E; simpl;
      (split; [eexists; split; [reflexivity |]; simpl;
               split; [reflexivity |]; split; [reflexivity |] |]);
      auto.
    + apply String.eqb_eq in Heq. tauto.
    + apply String.eqb_neq in Heq. split; [discriminate | contradiction].
Qed.

Lemma handleGuess_records_once_witness :
  let app' := HomeScreen.handleGuess 1700000000000%N 1700000000000%N
                (asking "Bulbasaur ") in
  (exists g,
     HomeScreen.history app' = g :: HomeScreen.history (asking "Bulbasaur ")
     /\ GuessHistory.pokemonName g = HomeScreen.name bulbasaur
     /\ GuessHistory.pokemonId g = HomeScreen.id bulbasaur
     /\ (GuessHistory.wasCorrect g = true
         <-> HomeScreen.normalizeString
               (HomeScreen.guess (HomeScreen.screen (asking "Bulbasaur ")))
             = HomeScreen.normalizeString (HomeScreen.name bulbasaur)))
  /\ HomeScreen.isRevealed (HomeScreen.screen app') = true
  /\ HomeScreen.pokemon (HomeScreen.screen app') = Some bulbasaur
  /\ forall now' date', HomeScreen.handleGuess now' date' app' = app'.
Proof.
  apply (proj2 (handleGuess_records_once 1700000000000%N 1700000000000%N
                  (asking "Bulbasaur ")) bulbasaur).
  - reflexivity.
  - discriminate.
  - reflexivity.
Defined.

(** A guess of white space only, a no-break space included, is dropped:
    no record, no reveal, no timer. *)
Example handleGuess_drops_no_break_space :
  HomeScreen.handleGuess 1700000000000%N 1700000000000%N (asking no_break_space)
  = asking no_break_space.
Proof. reflexivity. Qed.

(** X22: a wrong answer moves on, a right answer stays.  After a wrong
    guess the only timer set is the reload, and when it fires with a
    creature from the service the screen shows that creature, hidden, with
    an empty input and no error, and the history keeps its records; a
    correct guess never sets the reload timer. *)
Theorem wrong_guess_reloads now date app p q :
  HomeScreen.pokemon (HomeScreen.screen app) = Some p ->
  Js.trim (HomeScreen.guess (HomeScreen.screen app)) <> "" ->
  HomeScreen.isRevealed (HomeScreen.screen app) = false ->
  let app' := HomeScreen.handleGuess now date app in
  (HomeScreen.normalizeString (HomeScreen.guess (HomeScreen.screen app))
   <> HomeScreen.normalizeString (HomeScreen.name p) ->
   HomeScreen.timers app' = (HomeScreen.timers app ++ [HomeScreen.ReloadTimer])%list
   /\ let app'' := HomeScreen.fire HomeScreen.ReloadTimer (Some q) app' in
      HomeScreen.pokemon (HomeScreen.screen app'') = Some q
      /\ HomeScreen.isRevealed (HomeScreen.screen app'') = false
      /\ HomeScreen.guess (HomeScreen.screen app'') = ""
      /\ HomeScreen.error (HomeScreen.screen app'') = None
      /\ HomeScreen.history app'' = HomeScreen.history app')
  /\ (HomeScreen.normalizeString (HomeScreen.guess (HomeScreen.screen app))
      = HomeScreen.normalizeString (HomeScreen.name p) ->
      HomeScreen.timers app' = (HomeScreen.timers app ++ [HomeScreen.ToastyTimer])%list).
Proof.
  intros Hp Ht Hr. unfold HomeScreen.handleGuess. rewrite Hp, Hr.
  destruct (Js.trim (HomeScreen.guess (HomeScreen.screen app))) as [| a t] eqn:E;
    [contradiction |].
  destruct (String.eqb _ _) eqn:Heq; simpl.
  - apply String.eqb_eq in Heq. split; [contradiction | reflexivity].
  - apply String.eqb_neq in Heq. split; [| contradiction]. auto 10.
Qed.

Lemma wrong_guess_reloads_witness :
  let app' := HomeScreen.handleGuess 1700000000000%N 1700000000000%N
                (asking "ivysaur") in
  HomeScreen.timers app'
  = (HomeScreen.timers (asking "ivysaur") ++ [HomeScreen.ReloadTimer])%list
  /\ let app'' := HomeScreen.fire HomeScreen.ReloadTimer (Some bulbasaur) app' in
     HomeScreen.pokemon (HomeScreen.screen app'') = Some bulbasaur
     /\ HomeScreen.isRevealed (HomeScreen.screen app'') = false
     /\ HomeScreen.guess (HomeScreen.screen app'') = ""
     /\ HomeScreen.error (HomeScreen.screen app'') = None
     /\ HomeScreen.history app'' = HomeScreen.history app'.
Proof.
  apply (proj1 (wrong_guess_reloads 1700000000000%N 1700000000000%N
                  (asking "ivysaur") bulbasaur bulbasaur
                  eq_refl ltac:(discriminate) eq_refl)).
  vm_compute. discriminate.
Defined.

(** ** The history screen *)

Lemma fill_length pad : pad <> "" -> forall k rest,
  String.length (HistoryScreen.fill k pad rest) = k.
Proof.
  intros Hpad. induction k as [| k IH]; intros rest; simpl; [reflexivity |].
  destruct rest as [| c r]; [destruct pad as [| c r]; [contradiction |] |];
    simpl; f_equal; apply IH.
Qed.

Lemma fill_over pad : forall k rest,
  over (units pad) rest -> over (units pad) (HistoryScreen.fill k pad rest).
Proof.
  unfold over. induction k as [| k IH]; intros rest Hrest; simpl; [constructor |].
  destruct rest as [| c r].
  - destruct pad as [| c r] eqn:E; [constructor |].
    assert (Hall : Forall (fun c0 => In c0 (units (String c r))) (units (String c r))).
    { apply Forall_forall. intros x Hx. by apply list_elem_of_In. }
    inversion Hall; subst. constructor; [assumption |]. by apply IH.
  - inversion Hrest; subst. constructor; [assumption |]. by apply IH.
Qed.

Lemma length_append a b :
  String.length (a ++ b) = (String.length a + String.length b)%nat.
Proof. induction a as [| c a IH]; simpl; [reflexivity | by rewrite IH]. Qed.

(** X23: [padStart] pads and never cuts.  With a non-empty pad string the
    result has the longer of the target length and the length of the text,
    it ends with the whole text, and what is put in front consists of
    characters of the pad string. *)
Theorem padStart_pads target pad s :
  pad <> "" ->
  String.length (HistoryScreen.padStart target pad s)
  = Nat.max target (String.length s)
  /\ exists front,
       HistoryScreen.padStart target pad s = front ++ s
       /\ over (units pad) front.
Proof.
  intros Hpad. unfold HistoryScreen.padStart.
  destruct (Nat.leb_spec target (String.length s)) as [Hle | Hlt].
  - split; [lia |]. exists "". split; [reflexivity | constructor].
  - split.
    + rewrite length_append, fill_length by exact Hpad. lia.
    + eexists. split; [reflexivity |]. apply fill_over.
      apply Forall_forall. intros x Hx. by apply list_elem_of_In.
Qed.

Lemma padStart_pads_witness :
  String.length (HistoryScreen.padStart 3 "0" "25") = Nat.max 3 (String.length "25")
  /\ exists front,
       HistoryScreen.padStart 3 "0" "25" = front ++ "25"
       /\ over (units "0") front.
Proof.
  apply (padStart_pads 3 "0" "25"). discriminate.
Defined.

(** X24: the number shown beside a name has three digits.  For every id
    from 0 to 999 the label is ['#'] followed by three characters, so the
    ids 1 to 151 that the game draws all line up. *)
Theorem idLabel_three_digits pokemonId :
  0 <= pokemonId < 1000 ->
  String.length (HistoryScreen.idLabel pokemonId) = 4%nat.
Proof.
  intros H.
  assert (Hall : forallb three_digits (seq 0 1000) = true)
    by (vm_compute; reflexivity).
  rewrite forallb_forall in Hall.
  specialize (Hall (Z.to_nat pokemonId)).
  unfold three_digits in Hall. rewrite Z2Nat.id in Hall by lia.
  apply Nat.eqb_eq, Hall, in_seq. lia.
Qed.

Lemma idLabel_three_digits_witness :
  String.length (HistoryScreen.idLabel 25) = 4%nat.
Proof. apply (idLabel_three_digits 25). lia. Defined.

Example idLabel_pikachu : HistoryScreen.idLabel 25 = "#025".
Proof. vm_compute. reflexivity. Qed.

Example idLabel_mew : HistoryScreen.idLabel 151 = "#151".
Proof. vm_compute. reflexivity. Qed.

Example idLabel_beyond : HistoryScreen.idLabel 1025 = "#1025".
Proof. vm_compute. reflexivity. Qed.

(** X25: the name shown in the history is the recorded name with its
    first letter in upper case: it has the same length, and it normalizes
    to what the recorded name normalizes to, so it still names the
    creature. *)
Theorem displayName_same_creature pokemonName :
  String.length (HistoryScreen.displayName pokemonName) = String.length pokemonName
  /\ HomeScreen.normalizeString (HistoryScreen.displayName pokemonName)
     = HomeScreen.normalizeString pokemonName
  /\ HistoryScreen.displayName (HistoryScreen.displayName pokemonName)
     = HistoryScreen.displayName pokemonName.
Proof.
  unfold HistoryScreen.displayName, HomeScreen.normalizeString.
  destruct pokemonName as [| c s]; simpl; [auto |].
  split; [reflexivity |]. split.
  - unfold Js.toLowerCase. simpl. rewrite lower_upper_char. reflexivity.
  - unfold Js.toUpperCase. simpl. by rewrite upper_char_idem.
Qed.

Example displayName_pikachu : HistoryScreen.displayName "pikachu" = "Pikachu".
Proof. reflexivity. Qed.

(** ** A match driven from the screen *)

Lemma startGame_world_change who s w :
  exists s' w', startGame s w = (Ok s', w') /\ world_change who w w'.
Proof.
  unfold startGame.
  destruct (roomCode s) as [[| a k] |]; try unchanged.
  destruct (playerRole s) as [[|] |]; try unchanged.
  unfold fetchRandomPokemon, fetch_pokemon, Math_random. store_steps.
  destruct (random w); destruct (pokeapi w) as [| [p |] ps]; simpl;
    try unchanged;
    destruct (faults w) as [| [|] fs]; simpl; try unchanged;
    (destruct (rooms w !! String a k) as [r |] eqn:Hr; [| unchanged]);
    eexists _, _; (split; [reflexivity |]);
    (eapply wc_update; [exact Hr | reflexivity | apply ds_started]).
Qed.

Lemma playAgain_world_change who s w :
  exists w', playAgain s w = (Ok tt, w') /\ world_change who w w'.
Proof.
  unfold playAgain.
  destruct (roomCode s) as [[| a k] |]; try unchanged.
  destruct (playerRole s) as [[|] |]; try unchanged.
  unfold fetchRandomPokemon, fetch_pokemon, Math_random. store_steps.
  destruct (random w); destruct (pokeapi w) as [| [p |] ps]; simpl;
    try unchanged;
    destruct (faults w) as [| [|] fs]; simpl; try unchanged;
    (destruct (rooms w !! String a k) as [r |] eqn:Hr; [| unchanged]);
    eexists; (split; [reflexivity |]);
    (eapply wc_update; [exact Hr | reflexivity | apply ds_restarted]).
Qed.

Lemma roundEndElapsed_world_change who s w :
  synced w s ->
  exists w', BattleScreen.roundEndElapsed s w = (Ok tt, w') /\ world_change who w w'.
Proof.
  intros Hs. unfold BattleScreen.roundEndElapsed, nextRound.
  destruct (battleState s) eqn:Hb; try unchanged.
  destruct (playerRole s) as [[|] |]; try unchanged.
  destruct (roomCode s) as [[| a k] |] eqn:Hc; try unchanged.
  destruct (Hs _ Hc) as (r & Hr & Hroom & Hst); [discriminate |].
  rewrite Hroom.
  assert (Hend : status r = RoundEnd).
  { rewrite Hb in Hst. destruct (status r); simpl in Hst; congruence. }
  unfold fetchRandomPokemon, fetch_pokemon, Math_random. store_steps.
  destruct (random w); destruct (pokeapi w) as [| [p |] ps]; simpl;
    try unchanged;
    destruct (faults w) as [| [|] fs]; simpl; try unchanged;
    rewrite Hr; eexists; (split; [reflexivity |]);
    (eapply wc_update; [exact Hr | reflexivity | by apply ds_advanced]).
Qed.

Lemma updateCountdown_world_change who now s w :
  exists w', updateCountdown now s w = (Ok tt, w') /\ world_change who w w'.
Proof.
  unfold updateCountdown.
  destruct (battleState s); try unchanged.
  destruct (room s) as [r0 |]; try unchanged.
  destruct (countdownStartAt r0); try unchanged.
  destruct (_ <=? 0); try unchanged.
  destruct (playerRole s) as [[|] |]; try unchanged.
  destruct (roomCode s) as [[| a k] |]; try unchanged.
  store_steps.
  destruct (faults w) as [| [|] fs]; simpl; try unchanged;
    (destruct (rooms w !! String a k) as [r |] eqn:Hr; [| unchanged]);
    eexists; (split; [reflexivity |]);
    (eapply wc_update; [exact Hr | reflexivity | apply ds_playing]).
Qed.

Lemma submitGuess_world_change who text s w :
  synced w s ->
  exists b w', submitGuess text s w = (Ok b, w') /\ world_change who w w'.
Proof.
  intros Hs.
  destruct (roomCode s) as [[| a k] |] eqn:Hc;
    try (unfold submitGuess; rewrite Hc; unchanged).
  destruct (Hs _ Hc) as (r & Hr & Hroom & _); [discriminate |].
  destruct (playerRole s) as [role |] eqn:Hrole;
    [| unfold submitGuess; rewrite Hc, Hroom, Hrole; unchanged].
  destruct (decide (status r = Playing)) as [Hst | Hst];
    [| rewrite (submitGuess_ineligible text s w r) by auto; unchanged].
  destruct (currentPokemon r) as [pokemon |] eqn:Hp;
    [| rewrite (submitGuess_ineligible text s w r) by auto; unchanged].
  destruct (guess_of role r) as [mine |] eqn:Hg;
    [rewrite (submitGuess_ineligible text s w r) by eauto 10; unchanged |].
  rewrite (submitGuess_eligible text s w (String a k) role r pokemon)
    by (red; repeat split; auto; discriminate).
  eexists _, _. split; [reflexivity |]. unfold write_guess.
  destruct (faults w) as [| [|] fs]; simpl;
    try (apply wc_same; reflexivity); rewrite Hr;
    (eapply wc_update; [exact Hr | reflexivity | by apply ds_guess]).
Qed.

Lemma joinRoom_world_change who code s w :
  exists out w', joinRoom code s w = (Ok out, w') /\ world_change who w w'.
Proof.
  unfold joinRoom. store_steps.
  destruct (faults w) as [| [|] fs]; simpl; try unchanged;
    (destruct (rooms w !! Js.toUpperCase code) as [r |] eqn:Hr; simpl;
     [| unchanged]);
    (destruct (Js.truthy (guestId r)); simpl; [unchanged |]);
    (destruct (bool_decide (status r = Waiting)); simpl; [| unchanged]);
    try (destruct fs as [| [|] fs']; simpl; try unchanged);
    rewrite Hr; eexists _, _; (split; [reflexivity |]);
    (eapply wc_update; [exact Hr | reflexivity | apply ds_joined]).
Qed.

Lemma leaveRoom_world_change who s w :
  exists s' w', leaveRoom s w = (Ok s', w') /\ world_change who w w'.
Proof.
  unfold leaveRoom.
  destruct (roomCode s) as [[| a k] |]; try unchanged.
  destruct (playerRole s) as [[|] |]; store_steps;
    destruct (faults w) as [| [|] fs]; simpl; try unchanged;
    try (eexists _, _; split; [reflexivity |]; by eapply wc_delete);
    (destruct (rooms w !! String a k) as [r |] eqn:Hr; [| unchanged]);
    eexists _, _; (split; [reflexivity |]);
    (eapply wc_update; [exact Hr | reflexivity | apply ds_left]).
Qed.

Lemma createRoom_world_change s w :
  exists s' w',
    createRoom s w = (Ok s', w') /\ world_change (Some (playerId s)) w w'.
Proof.
  destruct (createRoom_store s w) as (s' & w' & E & _ & _ & [Hsame | [key Hw]]);
    exists s', w'; (split; [exact E |]).
  - by apply wc_same.
  - by eapply wc_created.
Qed.

Lemma handle_world_change e s w :
  synced w s ->
  exists s' w',
    BattleScreen.handle e s w = (Ok s', w')
    /\ world_change (BattleScreen.creator e s) w w'.
Proof.
  intros Hs. destruct e as [| now | text | | | code | |];
    unfold BattleScreen.handle, BattleScreen.creator.
  - unfold BattleScreen.pressStart.
    destruct (battleState s); try unchanged.
    destruct (playerRole s) as [[|] |]; try unchanged.
    apply startGame_world_change.
  - destruct (updateCountdown_world_change None now s w) as (w' & E & H).
    exists s, w'. unfold bind. rewrite E. auto.
  - unfold BattleScreen.handleGuess.
    destruct (Js.trim text); [unchanged |].
    destruct (submitGuess_world_change None text s w Hs) as (b & w' & E & H).
    exists s, w'. unfold bind. rewrite E. auto.
  - destruct (roundEndElapsed_world_change None s w Hs) as (w' & E & H).
    exists s, w'. unfold bind. rewrite E. auto.
  - unfold BattleScreen.pressPlayAgain.
    destruct (battleState s); try unchanged;
      destruct (playerRole s) as [[|] |]; try unchanged.
    destruct (playAgain_world_change None s w) as (w' & E & H).
    exists s, w'. unfold bind. rewrite E. auto.
  - destruct (joinRoom_world_change None code s w) as (out & w' & E & H).
    exists out.2, w'. unfold bind. rewrite E. auto.
  - apply leaveRoom_world_change.
  - unfold BattleScreen.pressCreate.
    destruct (battleState s); try unchanged; apply createRoom_world_change.
Qed.

Lemma occur_world_change ev sys :
  world_change
    (BattleScreen.creator ev.2 (refresh (world sys) (client ev.1 sys)))
    (world sys) (world (BattleScreen.occur ev sys)).
Proof.
  destruct ev as [[|] e]; unfold BattleScreen.occur; simpl.
  - destruct (handle_world_change e (refresh (world sys) (first sys)) (world sys))
      as (s' & w' & E & H); [apply refresh_synced |].
    rewrite E. exact H.
  - destruct (handle_world_change e (refresh (world sys) (second sys)) (world sys))
      as (s' & w' & E & H); [apply refresh_synced |].
    rewrite E. exact H.
Qed.


Lemma doc_step_identity r r' :
  doc_step r r' ->
  hostId r' = hostId r /\ createdAt r' = createdAt r
  /\ totalRounds r' = totalRounds r.
Proof.
  intros H.
  destruct H as [p now | p now Hend | | role gd Hst | p now | player |]; simpl;
    auto.
  unfold guessPatch, apply_patch. patch_cases role r gd; auto.
Qed.


(** No event changes who a client is. *)
Lemma refresh_playerId w s : playerId (refresh w s) = playerId s.
Proof.
  unfold refresh, onSnapshot.
  destruct (roomCode s) as [[| a k] |]; try reflexivity.
  destruct (rooms w !! String a k); reflexivity.
Qed.

Lemma then_ret_session {A} (m : M A) (s s' : Session) w w' :
  (m ;;; ret s) w = (Ok s', w') -> s' = s.
Proof.
  unfold bind, ret. destruct (m w) as [[a |] w1]; congruence.
Qed.

Lemma startGame_playerId s w s' w' :
  startGame s w = (Ok s', w') -> playerId s' = playerId s.
Proof.
  unfold startGame.
  destruct (roomCode s) as [[| a k] |]; try (unfold ret; congruence).
  destruct (playerRole s) as [[|] |]; try (unfold ret; congruence).
  unfold fetchRandomPokemon, fetch_pokemon, Math_random. store_steps.
  intros H. repeat case_match; simplify_eq; reflexivity.
Qed.

Lemma joinRoom_playerId code s w out w' :
  joinRoom code s w = (Ok out, w') -> playerId out.2 = playerId s.
Proof.
  unfold joinRoom. store_steps.
  intros H. repeat case_match; simplify_eq; reflexivity.
Qed.

Lemma leaveRoom_playerId s w s' w' :
  leaveRoom s w = (Ok s', w') -> playerId s' = playerId s.
Proof.
  unfold leaveRoom.
  destruct (roomCode s) as [[| a k] |]; try (unfold ret; congruence).
  intros H. apply then_ret_session in H. by rewrite H.
Qed.

Lemma handle_playerId e s w s' w' :
  BattleScreen.handle e s w = (Ok s', w') -> playerId s' = playerId s.
Proof.
  destruct e as [| now | text | | | code | |]; unfold BattleScreen.handle.
  - unfold BattleScreen.pressStart.
    destruct (battleState s); try (unfold ret; congruence);
      destruct (playerRole s) as [[|] |]; try (unfold ret; congruence);
      apply startGame_playerId.
  - intros H. apply then_ret_session in H. by rewrite H.
  - intros H. apply then_ret_session in H. by rewrite H.
  - intros H. apply then_ret_session in H. by rewrite H.
  - intros H. apply then_ret_session in H. by rewrite H.
  - unfold bind at 1.
    destruct (joinRoom code s w) as [[out |] w1] eqn:E; [| discriminate].
    unfold ret. intros [= <- <-]. by eapply joinRoom_playerId.
  - apply leaveRoom_playerId.
  - unfold BattleScreen.pressCreate.
    destruct (battleState s); try (unfold ret; congruence);
      destruct (createRoom_store s w) as (s1 & w1 & E & Hid & _);
      rewrite E; intros [= <- <-]; exact Hid.
Qed.

Lemma occur_playerId ev sys :
  playerId (first (BattleScreen.occur ev sys)) = playerId (first sys)
  /\ playerId (second (BattleScreen.occur ev sys)) = playerId (second sys).
Proof.
  destruct ev as [[|] e]; unfold BattleScreen.occur; simpl.
  - destruct (BattleScreen.handle e (refresh (world sys) (first sys)) (world sys))
      as [[s' |] w'] eqn:E; simpl; rewrite ?refresh_playerId; [| auto].
    apply handle_playerId in E. rewrite refresh_playerId in E. auto.
  - destruct (BattleScreen.handle e (refresh (world sys) (second sys)) (world sys))
      as [[s' |] w'] eqn:E; simpl; rewrite ?refresh_playerId; [| auto].
    apply handle_playerId in E. rewrite refresh_playerId in E. auto.
Qed.

(** X27: only the Create Room button creates a room or rewrites a room's
    identity.  A room that exists after any sequence of events of the
    battle screen either existed before, with the same [hostId],
    [createdAt] and [totalRounds], or was written by a Create Room event
    of the sequence: then its host is one of the two players and it has
    five rounds.  (The second case includes a room that Create Room wrote
    over an existing one.) *)
Theorem rooms_keep_identity evs sys key r' :
  rooms (world (BattleScreen.play evs sys)) !! key = Some r' ->
  (exists r,
     rooms (world sys) !! key = Some r
     /\ hostId r' = hostId r /\ createdAt r' = createdAt r
     /\ totalRounds r' = totalRounds r)
  \/ (Exists (fun ev => ev.2 = BattleScreen.PressCreate) evs
      /\ (hostId r' = playerId (first sys) \/ hostId r' = playerId (second sys))
      /\ totalRounds r' = 5).
Proof.
  unfold BattleScreen.play. revert sys.
  induction evs as [| ev evs IH]; intros sys Hr'; simpl in *; [left; eauto |].
  destruct (occur_playerId ev sys) as [Hid1 Hid2].
  destruct (IH _ Hr') as [(r1 & Hr1 & H1 & H2 & H3) | (Hex & Hhost & Hfive)].
  2:{ right. split; [by apply Exists_cons_tl |].
      rewrite <- Hid1, <- Hid2. auto. }
  destruct (occur_world_change ev sys)
    as [Hsame | k Hdel | k r0 r2 Hr0 Hupd Hstep | k player now Hwho Hnew].
  - left. rewrite Hsame in Hr1. eauto.
  - left. rewrite Hdel in Hr1. apply lookup_delete_Some in Hr1 as [_ Hr1]. eauto.
  - left. rewrite Hupd in Hr1.
    apply lookup_insert_Some in Hr1 as [[<- <-] | [_ Hr1]]; [| eauto].
    exists r0. split; [exact Hr0 |].
    destruct (doc_step_identity r0 r2 Hstep) as (G1 & G2 & G3).
    repeat split; congruence.
  - rewrite Hnew in Hr1.
    apply lookup_insert_Some in Hr1 as [[<- <-] | [_ Hr1]]; [| left; eauto].
    right. destruct ev as [c e]. simpl in *.
    destruct e; try discriminate Hwho. injection Hwho as <-.
    split; [by apply Exists_cons_hd |].
    rewrite H1, H3, refresh_playerId. simpl.
    split; [destruct c; auto | reflexivity].
Qed.

Example first_round_result :
  (currentRound <$> rooms (world (BattleScreen.play first_round opening)) !! "AB23CD")
  = Some 2
  /\ (status <$> rooms (world (BattleScreen.play first_round opening)) !! "AB23CD")
     = Some Countdown
  /\ (scores <$> rooms (world (BattleScreen.play first_round opening)) !! "AB23CD")
     = Some {| host := 0; guest := 1 |}.
Proof. repeat split; vm_compute; reflexivity. Qed.



Example second_thoughts_result :
  (hostId <$> rooms (world (BattleScreen.play second_thoughts opening)) !! "AAAAAA")
  = Some "player_g"
  /\ (hostId <$> rooms (world (BattleScreen.play second_thoughts opening)) !! "AB23CD")
     = Some "player_h"
  /\ rooms (world opening) !! "AAAAAA" = None.
Proof. repeat split; vm_compute; reflexivity. Qed.

(** The match under AB23CD, and the room the guest opened afterwards. *)
Lemma rooms_keep_identity_witness :
  (exists r',
     rooms (world (BattleScreen.play second_thoughts opening)) !! "AB23CD" = Some r'
     /\ ((exists r,
            rooms (world opening) !! "AB23CD" = Some r
            /\ hostId r' = hostId r /\ createdAt r' = createdAt r
            /\ totalRounds r' = totalRounds r)
         \/ (Exists (fun ev => ev.2 = BattleScreen.PressCreate) second_thoughts
             /\ (hostId r' = playerId (first opening)
                 \/ hostId r' = playerId (second opening))
             /\ totalRounds r' = 5)))
  /\ (exists r',
        rooms (world (BattleScreen.play second_thoughts opening)) !! "AAAAAA" = Some r'
        /\ ((exists r,
               rooms (world opening) !! "AAAAAA" = Some r
               /\ hostId r' = hostId r /\ createdAt r' = createdAt r
               /\ totalRounds r' = totalRounds r)
            \/ (Exists (fun ev => ev.2 = BattleScreen.PressCreate) second_thoughts
                /\ (hostId r' = playerId (first opening)
                    \/ hostId r' = playerId (second opening))
                /\ totalRounds r' = 5))).
Proof.
  split.
  - eexists. split; [vm_compute; reflexivity |].
    apply (rooms_keep_identity second_thoughts opening "AB23CD").
    vm_compute. reflexivity.
  - eexists. split; [vm_compute; reflexivity |].
    apply (rooms_keep_identity second_thoughts opening "AAAAAA").
    vm_compute. reflexivity.
Defined.

(** Pressed among eleven running matches, the button does rewrite the
    identity of the room stored under LLLLLL. *)
Example create_button_rewrites_identity :
  (hostId <$> rooms (world newcomers) !! "LLLLLL") = Some "player_x"
  /\ (hostId <$> rooms (world (BattleScreen.play [(First, BattleScreen.PressCreate)]
                                 newcomers)) !! "LLLLLL")
     = Some "player_b".
Proof. split; vm_compute; reflexivity. Qed.
